(** * MermaidRenderer: render controller and raster exporter

    A shallow embedding of [src/components/MermaidRenderer.tsx].  The React
    component owns one mutable reference ([mermaidRef]) to a [div]; an effect
    starts an asynchronous [mermaid.render] whenever the [chart] prop changes,
    and an imperative handle exposes [downloadAsPNG].  The model follows one
    instance of the component from its first render on.

    The component runs on a single event loop.  Every piece of code that runs
    to completion without suspending is one transition of [step]: a React
    render followed by the effect up to its [await], the resumption of a
    suspended [renderChart], the synchronous part of [downloadAsPNG], and the
    three callbacks it installs ([img.onload], [img.onerror], the callback
    handed to [canvas.toBlob]).  What the browser and the diagram engine decide
    (the clock, the order in which promises settle, whether an image decodes)
    arrives as the payload of the event.

    The page around the component is [src/components/ChatInterface.tsx]: the
    form that validates the address of a video and asks for its diagram, the
    button that hands a file name to [downloadAsPNG], and the link to
    draw.io built by [generateDrawIOUrl].  It is modelled in the same way,
    with the browser functions it calls ([JSON.stringify],
    [encodeURIComponent], [unescape], the matcher behind [RegExp.test]) as
    functions on strings of code units.  The base path of [vite.config.ts]
    closes the definitions. *)

From Stdlib Require Import ZArith QArith Qround Qabs.
From Stdlib Require Qcanon.
From stdpp Require Import gmap list strings.

Local Open Scope Z_scope.

(** ** JavaScript strings *)

(** A JavaScript string is a sequence of UTF-16 code units. *)
Abbreviation jsstring := (list N).

Module Js.

Definition lit (s : string) : jsstring :=
  (λ a, Ascii.N_of_ascii a) <$> String.list_ascii_of_string s.

(** [WhiteSpace] and [LineTerminator] of ECMA-262, the code units that
    [String.prototype.trim] strips. *)
Definition is_white_space (c : N) : bool :=
  bool_decide (c ∈ [0x9; 0xA; 0xB; 0xC; 0xD; 0x20; 0xA0; 0x1680; 0x2028;
                    0x2029; 0x202F; 0x205F; 0x3000; 0xFEFF]%N)
  || ((0x2000 <=? c)%N && (c <=? 0x200A)%N).

Fixpoint trim_start (s : jsstring) : jsstring :=
  match s with
  | c :: s' => if is_white_space c then trim_start s' else s
  | [] => []
  end.

Definition trim_end (s : jsstring) : jsstring :=
  reverse (trim_start (reverse s)).

Definition trim (s : jsstring) : jsstring := trim_end (trim_start s).

(** Truthiness of a string: every string but the empty one. *)
Definition truthy (s : jsstring) : bool :=
  match s with [] => false | _ :: _ => true end.

Fixpoint starts_with (pat s : jsstring) : bool :=
  match pat, s with
  | [], _ => true
  | p :: pat', c :: s' => (p =? c)%N && starts_with pat' s'
  | _ :: _, [] => false
  end.

(** [s.replace(pat, rep)] with a string pattern: the first occurrence of
    [pat] is replaced, a string without one is returned as it is.  [rep] is
    taken literally (the callers' replacement holds no [$]). *)
Fixpoint replace (pat rep s : jsstring) : jsstring :=
  if starts_with pat s then rep ++ drop (length pat) s
  else match s with
       | [] => []
       | c :: s' => c :: replace pat rep s'
       end.

(** [s.includes(pat)]. *)
Fixpoint includes (pat s : jsstring) : bool :=
  starts_with pat s ||
  match s with
  | [] => false
  | _ :: s' => includes pat s'
  end.

(** Decimal digits of a natural number, most significant first; [fuel]
    bounds the number of digits. *)
Fixpoint digits (fuel : nat) (n : N) (acc : jsstring) : jsstring :=
  match fuel with
  | O => acc
  | S fuel' =>
      let acc' := (0x30 + n mod 10)%N :: acc in
      if (n <? 10)%N then acc' else digits fuel' (n / 10)%N acc'
  end.

(** [String(z)] for an integral number (below 10^21 in magnitude, where
    JavaScript still prints plain decimals). *)
Definition of_Z (z : Z) : jsstring :=
  match z with
  | Z0 => lit "0"
  | Zpos p => digits (S (N.to_nat (N.log2 (Npos p)))) (Npos p) []
  | Zneg p => lit "-" ++ digits (S (N.to_nat (N.log2 (Npos p)))) (Npos p) []
  end.

End Js.

(** ** Text encodings behind the data URL *)

Module Encoding.

Definition is_high_surrogate (c : N) : bool := ((0xD800 <=? c) && (c <=? 0xDBFF))%N.
Definition is_low_surrogate (c : N) : bool := ((0xDC00 <=? c) && (c <=? 0xDFFF))%N.

Definition utf8_of_code_point (cp : N) : list N :=
  (if cp <? 0x80 then [cp]
   else if cp <? 0x800 then [0xC0 + cp / 0x40; 0x80 + cp mod 0x40]
   else if cp <? 0x10000 then
     [0xE0 + cp / 0x1000; 0x80 + (cp / 0x40) mod 0x40; 0x80 + cp mod 0x40]
   else
     [0xF0 + cp / 0x40000; 0x80 + (cp / 0x1000) mod 0x40;
      0x80 + (cp / 0x40) mod 0x40; 0x80 + cp mod 0x40])%N.

(** [unescape(encodeURIComponent(s))]: the UTF-8 bytes of [s], one character
    per byte.  [encodeURIComponent] throws a [URIError] on a surrogate that
    has no partner; that is the [None] here. *)
Fixpoint utf8_encode (s : jsstring) : option (list N) :=
  match s with
  | [] => Some []
  | c :: s' =>
      if is_high_surrogate c then
        match s' with
        | d :: s'' =>
            if is_low_surrogate d then
              let cp := (0x10000 + (c - 0xD800) * 0x400 + (d - 0xDC00))%N in
              (utf8_of_code_point cp ++.) <$> utf8_encode s''
            else None
        | [] => None
        end
      else if is_low_surrogate c then None
      else (utf8_of_code_point c ++.) <$> utf8_encode s'
  end.

Definition base64_digit (n : N) : N :=
  (if n <? 26 then 0x41 + n
   else if n <? 52 then 0x61 + (n - 26)
   else if n <? 62 then 0x30 + (n - 52)
   else if n =? 62 then 0x2B else 0x2F)%N.

(** [btoa] on a string of bytes. *)
Fixpoint btoa (bytes : list N) : jsstring :=
  match bytes with
  | [] => []
  | [a] =>
      [base64_digit (a / 4); base64_digit ((a mod 4) * 16); 0x3D; 0x3D]%N
  | [a; b] =>
      [base64_digit (a / 4); base64_digit ((a mod 4) * 16 + b / 16);
       base64_digit ((b mod 16) * 4); 0x3D]%N
  | a :: b :: c :: rest =>
      [base64_digit (a / 4); base64_digit ((a mod 4) * 16 + b / 16);
       base64_digit ((b mod 16) * 4 + c / 64); base64_digit (c mod 64)]%N
      ++ btoa rest
  end.

End Encoding.

(** ** The document *)

(** An element carries its attributes, its inline style declarations and
    its children; [style] is what [element.style] reads and writes. *)
#[warnings="-register-all"] Inductive Node :=
| Elem (tag : string) (attrs style : list (string * jsstring)) (children : list Node)
| Text (data : jsstring).

Module Dom.

(** First hit of [find] among siblings: the node found, and the path to it
    with the sibling's index in front. *)
Definition scan (find : Node → option (list nat * Node)) : nat → list Node → option (list nat * Node) :=
  fix go (i : nat) (ns : list Node) : option (list nat * Node) :=
    match ns with
    | [] => None
    | n :: ns' =>
        match find n with
        | Some (p, m) => Some (i :: p, m)
        | None => go (S i) ns'
        end
    end.

(** The first element named [t] in document order, [n] included. *)
Fixpoint find_element (t : string) (n : Node) : option (list nat * Node) :=
  match n with
  | Text _ => None
  | Elem tag _ _ kids =>
      if bool_decide (tag = t) then Some ([], n) else scan (find_element t) 0%nat kids
  end.

(** [n.querySelector(t)] for a type selector: the first descendant of [n]
    named [t]; [n] itself is not a candidate. *)
Definition querySelector (t : string) (n : Node) : option (list nat * Node) :=
  match n with
  | Text _ => None
  | Elem _ _ _ kids => scan (find_element t) 0%nat kids
  end.

Fixpoint subtree (p : list nat) (n : Node) : option Node :=
  match p with
  | [] => Some n
  | i :: p' =>
      match n with
      | Elem _ _ _ kids => kids !! i ≫= subtree p'
      | Text _ => None
      end
  end.

Fixpoint modify (p : list nat) (f : Node → Node) (n : Node) : Node :=
  match p with
  | [] => f n
  | i :: p' =>
      match n with
      | Elem t a s kids => Elem t a s (alter (modify p' f) i kids)
      | Text _ => n
      end
  end.

(** Assignment in an association list: an existing key keeps its place. *)
Fixpoint assign (k : string) (v : jsstring) (l : list (string * jsstring)) : list (string * jsstring) :=
  match l with
  | [] => [(k, v)]
  | (k', v') :: l' => if bool_decide (k' = k) then (k, v) :: l' else (k', v') :: assign k v l'
  end.

Definition set_attribute (k : string) (v : jsstring) (n : Node) : Node :=
  match n with
  | Elem t a s kids => Elem t (assign k v a) s kids
  | Text _ => n
  end.

Definition set_style (k : string) (v : jsstring) (n : Node) : Node :=
  match n with
  | Elem t a s kids => Elem t a (assign k v s) kids
  | Text _ => n
  end.

Definition set_children (kids : list Node) (n : Node) : Node :=
  match n with
  | Elem t a s _ => Elem t a s kids
  | Text _ => n
  end.

Definition children (n : Node) : list Node :=
  match n with
  | Elem _ _ _ kids => kids
  | Text _ => []
  end.

End Dom.

(** A reference to a live node: the tree it sits in, by the address of the
    tree's root, and the path down to it.  Two references to one node are
    equal, and a write through one is seen through the other. *)
Definition NodeRef : Type := nat * list nat.

(** ** Numbers *)

(** JavaScript numbers are binary64 values.  A finite one is given as the
    rational it is; [None] stands for an infinity.  An operation rounds its
    exact result to the nearest binary64 value, ties to even. *)
Module Num.

Definition number : Type := option Q.

(** The whole number nearest to [x], the even one of two. *)
Definition round_half_even (x : Q) : Z :=
  let f := Qfloor x in
  match (x - inject_Z f ?= 1 # 2)%Q with
  | Lt => f
  | Gt => f + 1
  | Eq => if Z.even f then f else f + 1
  end.

(** The binade of [a/b]: the [e] with [2^e <= a/b < 2^(e+1)]. *)
Definition binade (a b : positive) : Z :=
  let d := Z.log2 (Zpos a) - Z.log2 (Zpos b) in
  if (if 0 <=? d then Zpos b * 2 ^ d <=? Zpos a else Zpos b <=? Zpos a * 2 ^ (- d))
  then d else d - 1.

(** [x * 2^k]. *)
Definition scale2 (x : Q) (k : Z) : Q :=
  (if 0 <=? k then x * inject_Z (2 ^ k) else x / inject_Z (2 ^ (- k)))%Q.

(** The binary64 value of a rational: 53 significant bits, exponents from
    -1022 on, round to nearest, ties to even, an infinity from [2^1024]
    on. *)
Definition round (x : Q) : number :=
  match Qnum x with
  | Z0 => Some 0%Q
  | Zpos a | Zneg a =>
      let e := Z.max (binade a (Qden x)) (-1022) in
      let y := scale2 (inject_Z (round_half_even (scale2 x (52 - e)))) (e - 52) in
      if Qle_bool (inject_Z (2 ^ 1024)) (Qabs y) then None else Some (Qred y)
  end.

(** [x + y] and [x * y].  An infinity stays one: of the operands below at
    most one is an infinity, and none is zero next to it. *)
Definition add (x y : number) : number := a ← x; b ← y; round (Qred (a + b)).
Definition mul (x y : number) : number := a ← x; b ← y; round (Qred (a * b)).

(** [a || b] on numbers: [a] unless it is [undefined] or zero. *)
Definition or_else (a : option Q) (b : Q) : Q :=
  match a with
  | Some x => if Qeq_bool x 0 then b else x
  | None => b
  end.

Definition truncate (x : Q) : Z :=
  if Qle_bool 0 x then Qfloor x else Qceiling x.

(** Conversion of a number to the IDL type [unsigned long]; an infinity
    gives 0. *)
Definition to_unsigned_long (x : number) : Z :=
  match x with
  | Some q => truncate q mod 2 ^ 32
  | None => 0
  end.

(** A reflected [unsigned long] attribute with a default: a value above
    2147483647 is replaced by the default. *)
Definition reflect_unsigned_long (default : Z) (x : number) : Z :=
  let v := to_unsigned_long x in
  if v <=? 2147483647 then v else default.

End Num.

(** ** The canvas *)

Inductive DrawOp :=
| FillRect (fillStyle : jsstring) (x y w h : Q)
| DrawImage (src : jsstring) (dx dy dw dh : Q).

Record Canvas := {
  cv_width : Z;
  cv_height : Z;
  cv_scale : Num.number * Num.number;
  cv_fillStyle : jsstring;
  cv_ops : list DrawOp;
}.

Module Cv.

(** [document.createElement('canvas')]. *)
Definition create : Canvas :=
  {| cv_width := 300; cv_height := 150; cv_scale := (Some 1%Q, Some 1%Q);
     cv_fillStyle := Js.lit "#000000"; cv_ops := [] |}.

(** Assigning a dimension clears the bitmap and resets the context. *)
Definition set_width (x : Num.number) (c : Canvas) : Canvas :=
  {| cv_width := Num.reflect_unsigned_long 300 x; cv_height := cv_height c;
     cv_scale := (Some 1%Q, Some 1%Q); cv_fillStyle := Js.lit "#000000"; cv_ops := [] |}.

Definition set_height (x : Num.number) (c : Canvas) : Canvas :=
  {| cv_width := cv_width c; cv_height := Num.reflect_unsigned_long 150 x;
     cv_scale := (Some 1%Q, Some 1%Q); cv_fillStyle := Js.lit "#000000"; cv_ops := [] |}.

Definition scale (sx sy : Q) (c : Canvas) : Canvas :=
  {| cv_width := cv_width c; cv_height := cv_height c;
     cv_scale := (Num.mul (fst (cv_scale c)) (Some sx), Num.mul (snd (cv_scale c)) (Some sy));
     cv_fillStyle := cv_fillStyle c; cv_ops := cv_ops c |}.

Definition set_fillStyle (s : jsstring) (c : Canvas) : Canvas :=
  {| cv_width := cv_width c; cv_height := cv_height c; cv_scale := cv_scale c;
     cv_fillStyle := s; cv_ops := cv_ops c |}.

Definition draw (op : DrawOp) (c : Canvas) : Canvas :=
  {| cv_width := cv_width c; cv_height := cv_height c; cv_scale := cv_scale c;
     cv_fillStyle := cv_fillStyle c; cv_ops := cv_ops c ++ [op] |}.

(** [fillRect] returns at once when an argument is not finite. *)
Definition fillRect (x y : Q) (w h : Num.number) (c : Canvas) : Canvas :=
  match w, h with
  | Some w, Some h => draw (FillRect (cv_fillStyle c) x y w h) c
  | _, _ => c
  end.

End Cv.

(** ** What the environment provides *)

(** Browser services the component calls and whose results it only passes
    on: the fragment parser behind the [innerHTML] setter,
    [XMLSerializer.serializeToString] and [Number.prototype.toString]. *)
Record Platform := {
  parseHTML : jsstring → list Node;
  serializeToString : Node → jsstring;
  numberToString : Q → jsstring;
}.

(** A value that was thrown, or that a promise was rejected with. *)
Inductive Thrown :=
| EngineError (text : jsstring)
| TypeError (message : string)
| URIError (message : string)
| DOMException (name : string).

(** [String(error)], as the template literal of the error panel builds it;
    an [EngineError] is identified with this rendering. *)
Definition Thrown_toString (e : Thrown) : jsstring :=
  match e with
  | EngineError text => text
  | TypeError m => Js.lit "TypeError: " ++ Js.lit m
  | URIError m => Js.lit "URIError: " ++ Js.lit m
  | DOMException n => Js.lit n
  end.

(** How the promise returned by [mermaid.render] settles. *)
Inductive Settled :=
| Fulfilled (svg : jsstring)
| Rejected (error : Thrown).

(** What [downloadAsPNG] measures on the mounted element: the view box
    ([viewBox?.baseVal], width and height), the bounding client rectangle,
    and whether [getContext('2d')] hands out a context.  The numbers
    measured are finite. *)
Record ExportEnv := {
  viewBox : option (Q * Q);
  clientRect : Q * Q;
  context2d : bool;
}.

(** The [try] block of [img.onload]: [drawImage] throws, or [toBlob] throws,
    or [toBlob] returns and will call back. *)
Inductive TryOutcome :=
| DrawImageThrows (error : Thrown)
| ToBlobThrows (error : Thrown)
| ToBlobQueued.

(** ** The state of the page *)

Inductive Blob :=
| PngBlob (bytes : list N)
| SvgBlob (text : jsstring).

Definition blob_type (b : Blob) : string :=
  match b with
  | PngBlob _ => "image/png"
  | SvgBlob _ => "image/svg+xml"
  end.

(** A file handed to the user by a click on a [download] link. *)
Record Download := {
  dl_filename : jsstring;
  dl_blob : Blob;
}.

Inductive LogEntry :=
| console_log (label : string) (arg : jsstring)
| console_error (label : string) (arg : option Thrown).

(** A [renderChart] call suspended at its [await]. *)
Record Attempt := {
  att_id : jsstring;
  att_chart : jsstring;
}.

(** An [Image] whose [src] has been assigned, with what its two handlers
    have captured. *)
Record PendingImage := {
  img_src : jsstring;
  img_canvas : Canvas;
  img_svgWidth : Q;
  img_svgHeight : Q;
  img_svgData : jsstring;
  img_filename : jsstring;
}.

(** A [toBlob] call that has not called back yet. *)
Record PendingEncode := {
  enc_canvas : Canvas;
  enc_filename : jsstring;
}.

Record World := {
  chart : option jsstring;          (* the prop of the last render; [None] before the first *)
  mermaidRef : option nat;          (* [mermaidRef.current] *)
  heap : gmap nat Node;             (* the trees of the document, by root *)
  mermaidConfig : option string;    (* the theme handed to [mermaid.initialize] *)
  attempts : list Attempt;
  images : list PendingImage;
  encodings : list PendingEncode;
  downloads : list Download;
  console : list LogEntry;
  uncaught : list Thrown;           (* uncaught exceptions and unhandled rejections *)
}.

Definition init : World :=
  {| chart := None; mermaidRef := None; heap := ∅; mermaidConfig := None;
     attempts := []; images := []; encodings := []; downloads := [];
     console := []; uncaught := [] |}.

Module W.

Definition set_chart (c : option jsstring) (w : World) : World :=
  {| chart := c; mermaidRef := mermaidRef w; heap := heap w;
     mermaidConfig := mermaidConfig w; attempts := attempts w; images := images w;
     encodings := encodings w; downloads := downloads w; console := console w;
     uncaught := uncaught w |}.

Definition set_mermaidRef (r : option nat) (w : World) : World :=
  {| chart := chart w; mermaidRef := r; heap := heap w;
     mermaidConfig := mermaidConfig w; attempts := attempts w; images := images w;
     encodings := encodings w; downloads := downloads w; console := console w;
     uncaught := uncaught w |}.

Definition set_heap (h : gmap nat Node) (w : World) : World :=
  {| chart := chart w; mermaidRef := mermaidRef w; heap := h;
     mermaidConfig := mermaidConfig w; attempts := attempts w; images := images w;
     encodings := encodings w; downloads := downloads w; console := console w;
     uncaught := uncaught w |}.

Definition set_mermaidConfig (c : option string) (w : World) : World :=
  {| chart := chart w; mermaidRef := mermaidRef w; heap := heap w;
     mermaidConfig := c; attempts := attempts w; images := images w;
     encodings := encodings w; downloads := downloads w; console := console w;
     uncaught := uncaught w |}.

Definition set_attempts (l : list Attempt) (w : World) : World :=
  {| chart := chart w; mermaidRef := mermaidRef w; heap := heap w;
     mermaidConfig := mermaidConfig w; attempts := l; images := images w;
     encodings := encodings w; downloads := downloads w; console := console w;
     uncaught := uncaught w |}.

Definition set_images (l : list PendingImage) (w : World) : World :=
  {| chart := chart w; mermaidRef := mermaidRef w; heap := heap w;
     mermaidConfig := mermaidConfig w; attempts := attempts w; images := l;
     encodings := encodings w; downloads := downloads w; console := console w;
     uncaught := uncaught w |}.

Definition set_encodings (l : list PendingEncode) (w : World) : World :=
  {| chart := chart w; mermaidRef := mermaidRef w; heap := heap w;
     mermaidConfig := mermaidConfig w; attempts := attempts w; images := images w;
     encodings := l; downloads := downloads w; console := console w;
     uncaught := uncaught w |}.

Definition set_downloads (l : list Download) (w : World) : World :=
  {| chart := chart w; mermaidRef := mermaidRef w; heap := heap w;
     mermaidConfig := mermaidConfig w; attempts := attempts w; images := images w;
     encodings := encodings w; downloads := l; console := console w;
     uncaught := uncaught w |}.

Definition set_console (l : list LogEntry) (w : World) : World :=
  {| chart := chart w; mermaidRef := mermaidRef w; heap := heap w;
     mermaidConfig := mermaidConfig w; attempts := attempts w; images := images w;
     encodings := encodings w; downloads := downloads w; console := l;
     uncaught := uncaught w |}.

Definition set_uncaught (l : list Thrown) (w : World) : World :=
  {| chart := chart w; mermaidRef := mermaidRef w; heap := heap w;
     mermaidConfig := mermaidConfig w; attempts := attempts w; images := images w;
     encodings := encodings w; downloads := downloads w; console := console w;
     uncaught := l |}.

(** [console.log], [console.error]. *)
Definition log (e : LogEntry) (w : World) : World := set_console (console w ++ [e]) w.

(** An exception nobody catches, or the rejection of a promise nobody
    observes. *)
Definition escape (e : Thrown) (w : World) : World := set_uncaught (uncaught w ++ [e]) w.

(** The node a reference points to. *)
Definition deref (r : NodeRef) (w : World) : option Node :=
  heap w !! r.1 ≫= Dom.subtree r.2.

(** A write through a reference. *)
Definition update (r : NodeRef) (f : Node → Node) (w : World) : World :=
  set_heap (alter (Dom.modify r.2 f) r.1 (heap w)) w.

(** A new tree, at an address no tree has. *)
Definition alloc (n : Node) (w : World) : nat * World :=
  let l := fresh (dom (heap w)) in (l, set_heap (<[l := n]> (heap w)) w).

End W.

(** The element [mermaidRef] points to, if any: what the page shows. *)
Definition mounted (w : World) : option Node :=
  mermaidRef w ≫= λ l, heap w !! l.

(** ** The component *)

Section Component.

Context (P : Platform).

(** *** Render controller (lines 112-184) *)

(** The [div] that carries [ref={mermaidRef}]. *)
Definition mount_div : Node :=
  Elem "div"
    [("class", Js.lit "bg-slate-800/30 border border-slate-700/30 rounded-lg p-6 overflow-auto")]
    [] [].

(** [if (!chart.trim()) return null]: whether the component returns the
    [div]. *)
Definition shows_div (c : jsstring) : bool := Js.truthy (Js.trim c).

(** React's commit: a [div] that appears is created and the ref attached to
    it, a [div] that stays is left alone with whatever it contains, and when
    the component returns [null] the [div] leaves the page and the ref is
    set to [null]. *)
Definition commit (c : jsstring) (w : World) : World :=
  if shows_div c then
    match mermaidRef w with
    | Some _ => w
    | None => let '(l, w') := W.alloc mount_div w in W.set_mermaidRef (Some l) w'
    end
  else W.set_mermaidRef None w.

(** [element.innerHTML = html]. *)
Definition set_innerHTML (l : nat) (html : jsstring) (w : World) : World :=
  W.update (l, []) (Dom.set_children (parseHTML P html)) w.

Definition dquote : jsstring := [0x22]%N.

Definition open_tag (name class : string) : jsstring :=
  Js.lit "<" ++ Js.lit name ++ Js.lit " class=" ++ dquote ++ Js.lit class ++ dquote ++ Js.lit ">".

Definition line (indent : nat) (s : jsstring) : jsstring :=
  [0xA]%N ++ replicate indent 0x20%N ++ s.

(** The template literal of lines 156-165, up to the interpolation. *)
Definition error_panel_before : jsstring :=
  line 12 (open_tag "div" "text-red-400 p-4 bg-red-900/20 border border-red-700/50 rounded-lg") ++
  line 14 (open_tag "h3" "font-semibold mb-2" ++ Js.lit "Error rendering diagram</h3>") ++
  line 14 (open_tag "p" "text-sm" ++
           Js.lit "Unable to render the mermaid diagram. Please check the syntax.</p>") ++
  line 14 (open_tag "details" "mt-2") ++
  line 16 (open_tag "summary" "cursor-pointer text-xs opacity-70" ++
           Js.lit "Show error details</summary>") ++
  line 16 (open_tag "pre" "text-xs mt-1 opacity-70").

(** The template literal after the interpolation. *)
Definition error_panel_after : jsstring :=
  Js.lit "</pre>" ++ line 14 (Js.lit "</details>") ++ line 12 (Js.lit "</div>") ++ line 10 [].

Definition error_panel (error : jsstring) : jsstring :=
  error_panel_before ++ error ++ error_panel_after.

(** [renderChart] up to its [await] (lines 131-142). *)
Definition renderChart_start (c : jsstring) (now : Z) (w : World) : World :=
  match mermaidRef w with
  | Some l =>
      if Js.truthy (Js.trim c) then
        let w := W.log (console_log "Mermaid diagram syntax:" c) w in
        let w := set_innerHTML l [] w in
        let id := Js.lit "mermaid-" ++ Js.of_Z now in
        W.set_attempts (attempts w ++ [ {| att_id := id; att_chart := c |} ]) w
      else w
  | None => w
  end.

(** The [catch] block (lines 154-166).  With no element behind the ref the
    assignment throws in its turn, and the promise of [renderChart], which
    the effect drops, is rejected. *)
Definition renderChart_catch (error : Thrown) (w : World) : World :=
  let w := W.log (console_error "Mermaid rendering error:" (Some error)) w in
  match mermaidRef w with
  | Some l => set_innerHTML l (error_panel (Thrown_toString error)) w
  | None => W.escape (TypeError "Cannot set properties of null (setting 'innerHTML')") w
  end.

(** [renderChart] from its [await] on (lines 142-166). *)
Definition renderChart_resume (o : Settled) (w : World) : World :=
  match o with
  | Fulfilled svg =>
      match mermaidRef w with
      | Some l =>
          let w := set_innerHTML l svg w in
          match heap w !! l ≫= Dom.querySelector "svg" with
          | Some (p, _) =>
              let svgElement : NodeRef := (l, p) in
              let w := W.update svgElement (Dom.set_style "max-width" (Js.lit "100%")) w in
              let w := W.update svgElement (Dom.set_style "height" (Js.lit "auto")) w in
              W.update svgElement (Dom.set_style "background-color" (Js.lit "transparent")) w
          | None => w
          end
      | None =>
          renderChart_catch (TypeError "Cannot set properties of null (setting 'innerHTML')") w
      end
  | Rejected error => renderChart_catch error w
  end.

(** The effect (lines 112-171): [mermaid.initialize], then [renderChart()]. *)
Definition effect (c : jsstring) (now : Z) (w : World) : World :=
  renderChart_start c now (W.set_mermaidConfig (Some "dark") w).

(** One render of the component with [chart = c]: the commit, then the
    effect if the dependency [chart] is new.  [now] is what [Date.now()]
    returns while the effect runs. *)
Definition render (c : jsstring) (now : Z) (w : World) : World :=
  let w' := W.set_chart (Some c) (commit c w) in
  if bool_decide (chart w = Some c) then w' else effect c now w'.

(** The promise of the [k]-th suspended [renderChart] settles. *)
Definition settle (k : nat) (o : Settled) (w : World) : World :=
  match attempts w !! k with
  | Some _ => renderChart_resume o (W.set_attempts (delete k (attempts w)) w)
  | None => w
  end.

(** *** Raster exporter (lines 16-106) *)

Definition padding : Q := 40.
Definition scale : Q := 2.

(** [svgElement.viewBox?.baseVal?.width || svgRect.width], and the same for
    the height. *)
Definition svgWidth (env : ExportEnv) : Q :=
  Num.or_else (fst <$> viewBox env) (fst (clientRect env)).

Definition svgHeight (env : ExportEnv) : Q :=
  Num.or_else (snd <$> viewBox env) (snd (clientRect env)).

(** [x + padding * 2], as lines 42, 43 and 50 compute it. *)
Definition padded (x : Q) : Num.number :=
  Num.add (Some x) (Num.mul (Some padding) (Some 2%Q)).

(** The canvas as lines 35-50 leave it: created, sized, scaled and filled
    with white. *)
Definition export_canvas (env : ExportEnv) : Canvas :=
  let canvas := Cv.create in
  let canvas := Cv.set_width (Num.mul (padded (svgWidth env)) (Some scale)) canvas in
  let canvas := Cv.set_height (Num.mul (padded (svgHeight env)) (Some scale)) canvas in
  let canvas := Cv.scale scale scale canvas in
  let canvas := Cv.set_fillStyle (Js.lit "#ffffff") canvas in
  Cv.fillRect 0 0 (padded (svgWidth env)) (padded (svgHeight env)) canvas.

(** Lines 66-73, and again 80-87 and 95-102: an object URL for the blob, a
    link with that [href] and the [download] name, appended to the body,
    clicked and removed, and the URL revoked.  What is left of it is the
    file. *)
Definition trigger_download (blob : Blob) (filename : jsstring) (w : World) : World :=
  W.set_downloads (downloads w ++ [ {| dl_filename := filename; dl_blob := blob |} ]) w.

(** The name under which both fallbacks save. *)
Definition fallback_filename (filename : jsstring) : jsstring :=
  Js.replace (Js.lit ".png") (Js.lit ".svg") filename.

Definition download_svg (im : PendingImage) (w : World) : World :=
  trigger_download (SvgBlob (img_svgData im)) (fallback_filename (img_filename im)) w.

(** The file name parameter with its default. *)
Definition requested (filename : option jsstring) : jsstring :=
  default (Js.lit "mermaid-diagram.png") filename.

(** Lines 22-32: the duplicate of the element found, with the dimensions
    stamped on it.  The duplicate is a tree of its own. *)
Definition clone_with_size (env : ExportEnv) (svg : Node) (w : World) : NodeRef * World :=
  let '(c, w) := W.alloc svg w in
  let svgClone : NodeRef := (c, []) in
  let w := W.update svgClone (Dom.set_attribute "width" (numberToString P (svgWidth env))) w in
  let w := W.update svgClone (Dom.set_attribute "height" (numberToString P (svgHeight env))) w in
  (svgClone, w).

(** Lines 39-105: the canvas, the serialized duplicate as a data URL, and
    the image that is to decode it. *)
Definition load_image (filename : jsstring) (env : ExportEnv) (svgClone : NodeRef) (w : World) : World :=
  match W.deref svgClone w with
  | Some clone =>
      let svgData := serializeToString P clone in
      match Encoding.utf8_encode svgData with
      | Some bytes =>
          let svgDataUrl := Js.lit "data:image/svg+xml;base64," ++ Encoding.btoa bytes in
          W.set_images
            (images w ++ [ {| img_src := svgDataUrl;
                              img_canvas := export_canvas env;
                              img_svgWidth := svgWidth env;
                              img_svgHeight := svgHeight env;
                              img_svgData := svgData;
                              img_filename := filename |} ]) w
      | None => W.escape (URIError "URI malformed") w
      end
  | None => w
  end.

(** [downloadAsPNG] up to [img.src = svgDataUrl]. *)
Definition downloadAsPNG (filename : option jsstring) (env : ExportEnv) (w : World) : World :=
  let filename := requested filename in
  match mermaidRef w with
  | None => w
  | Some l =>
      match heap w !! l ≫= Dom.querySelector "svg" with
      | None => w
      | Some (p, svg) =>
          let '(svgClone, w) := clone_with_size env svg w in
          if context2d env then load_image filename env svgClone w else w
      end
  end.

(** The [catch] block of [img.onload] (lines 76-88). *)
Definition onload_catch (im : PendingImage) (error : Thrown) (w : World) : World :=
  download_svg im (W.log (console_error "Error converting to PNG:" (Some error)) w).

(** [img.onload] of the [k]-th pending image (lines 59-89). *)
Definition img_onload (k : nat) (t : TryOutcome) (w : World) : World :=
  match images w !! k with
  | Some im =>
      let w := W.set_images (delete k (images w)) w in
      match t with
      | DrawImageThrows error => onload_catch im error w
      | ToBlobThrows error => onload_catch im error w
      | ToBlobQueued =>
          let drawn :=
            Cv.draw (DrawImage (img_src im) padding padding (img_svgWidth im) (img_svgHeight im))
                    (img_canvas im) in
          W.set_encodings
            (encodings w ++ [ {| enc_canvas := drawn; enc_filename := img_filename im |} ]) w
      end
  | None => w
  end.

(** [img.onerror] of the [k]-th pending image (lines 91-103). *)
Definition img_onerror (k : nat) (w : World) : World :=
  match images w !! k with
  | Some im =>
      let w := W.set_images (delete k (images w)) w in
      download_svg im (W.log (console_error "Error loading SVG as image" None) w)
  | None => w
  end.

(** The callback of the [k]-th pending [toBlob] (lines 64-75); [png] is the
    blob, [None] for [null]. *)
Definition toBlob_callback (k : nat) (png : option (list N)) (w : World) : World :=
  match encodings w !! k with
  | Some en =>
      let w := W.set_encodings (delete k (encodings w)) w in
      match png with
      | Some bytes => trigger_download (PngBlob bytes) (enc_filename en) w
      | None => w
      end
  | None => w
  end.

(** *** The event loop *)

Inductive Event :=
| Render (c : jsstring) (now : Z)
| Settle (k : nat) (o : Settled)
| Export (filename : option jsstring) (env : ExportEnv)
| ImageLoad (k : nat) (t : TryOutcome)
| ImageError (k : nat)
| BlobReady (k : nat) (png : option (list N)).

Definition step (e : Event) (w : World) : World :=
  match e with
  | Render c now => render c now w
  | Settle k o => settle k o w
  | Export filename env => downloadAsPNG filename env w
  | ImageLoad k t => img_onload k t w
  | ImageError k => img_onerror k w
  | BlobReady k png => toBlob_callback k png w
  end.

Definition run (es : list Event) (w : World) : World :=
  foldl (λ w e, step e w) w es.

End Component.

(** ** The vocabulary of the properties *)

Definition is_element (n : Node) : Prop := ∃ t a s kids, n = Elem t a s kids.

(** The ref, when it is set, points to an element of the document. *)
Definition attached (w : World) : Prop :=
  ∀ l, mermaidRef w = Some l → ∃ t a s kids, heap w !! l = Some (Elem t a s kids).

(** Every field of the state but the heap. *)
Definition same_but_heap (w w' : World) : Prop :=
  chart w' = chart w ∧ mermaidRef w' = mermaidRef w ∧
  mermaidConfig w' = mermaidConfig w ∧ attempts w' = attempts w ∧
  images w' = images w ∧ encodings w' = encodings w ∧
  downloads w' = downloads w ∧ console w' = console w ∧ uncaught w' = uncaught w.

(** The events that belong to an export: the call and its callbacks. *)
Definition of_exporter (e : Event) : bool :=
  match e with
  | Export _ _ | ImageLoad _ _ | ImageError _ | BlobReady _ _ => true
  | Render _ _ | Settle _ _ => false
  end.

(** What [XMLSerializer] makes of the [svg] element of the page. *)
Definition serialized_svg (P : Platform) (w : World) : option jsstring :=
  '(_, svg) ← mounted w ≫= Dom.querySelector "svg"; Some (serializeToString P svg).

(** [svgData]: the serialized duplicate of [svg], dimensions stamped. *)
Definition export_markup (P : Platform) (env : ExportEnv) (svg : Node) : jsstring :=
  serializeToString P
    (Dom.set_attribute "height" (numberToString P (svgHeight env))
       (Dom.set_attribute "width" (numberToString P (svgWidth env)) svg)).

(** How an export that has started its image ends, the encoder's [null]
    apart. *)
Inductive Fate :=
| DecodeFails
| DrawThrows (error : Thrown)
| EncodeThrows (error : Thrown)
| Encoded (png : list N).

(** The events of the fate of the [i]-th pending image, whose encoding, if
    it gets to one, is the [j]-th pending one. *)
Definition completion (i j : nat) (f : Fate) : list Event :=
  match f with
  | DecodeFails => [ImageError i]
  | DrawThrows error => [ImageLoad i (DrawImageThrows error)]
  | EncodeThrows error => [ImageLoad i (ToBlobThrows error)]
  | Encoded png => [ImageLoad i ToBlobQueued; BlobReady j (Some png)]
  end.

Definition produced (filename svgData : jsstring) (f : Fate) : Download :=
  match f with
  | Encoded png => {| dl_filename := filename; dl_blob := PngBlob png |}
  | _ => {| dl_filename := fallback_filename filename; dl_blob := SvgBlob svgData |}
  end.

(** The three style assignments of lines 150-152, at the element found. *)
Definition restyle (p : list nat) (n : Node) : Node :=
  Dom.modify p (Dom.set_style "background-color" (Js.lit "transparent"))
    (Dom.modify p (Dom.set_style "height" (Js.lit "auto"))
       (Dom.modify p (Dom.set_style "max-width" (Js.lit "100%")) n)).

(** What a settled attempt puts into the [div]: the parsed markup with its
    first [svg] element restyled, or the parsed error panel. *)
Definition shown (P : Platform) (o : Settled) : list Node :=
  match o with
  | Fulfilled svg =>
      let kids := parseHTML P svg in
      match Dom.scan (Dom.find_element "svg") 0 kids with
      | Some (p, _) => Dom.children (restyle p (Elem "div" [] [] kids))
      | None => kids
      end
  | Rejected error => parseHTML P (error_panel (Thrown_toString error))
  end.






(** The number a string of decimal digits stands for. *)
Definition decimal (v : N) (s : jsstring) : N :=
  foldl (λ v c, v * 10 + (c - 0x30))%N v s.

(** ** A platform to run the model on *)

Module Fixture.

(** A parser that knows one element: markup that starts with [<svg] is an
    [svg] element around its text, anything else is text. *)
Definition parse (s : jsstring) : list Node :=
  match s with
  | [] => []
  | _ :: _ => if Js.starts_with (Js.lit "<svg") s then [Elem "svg" [] [] [Text s]] else [Text s]
  end.

Fixpoint serialize (n : Node) : jsstring :=
  match n with
  | Text d => d
  | Elem t a s kids =>
      Js.lit "<" ++ Js.lit t ++
      concat ((λ kv, Js.lit " " ++ Js.lit kv.1 ++ Js.lit "='" ++ kv.2 ++ Js.lit "'") <$> a) ++
      Js.lit ">" ++ concat (serialize <$> kids) ++ Js.lit "</" ++ Js.lit t ++ Js.lit ">"
  end.

Definition number (q : Q) : jsstring :=
  if (Qden q =? 1)%positive then Js.of_Z (Qnum q)
  else Js.of_Z (Qnum q) ++ Js.lit "/" ++ Js.of_Z (Zpos (Qden q)).

Definition platform : Platform :=
  {| parseHTML := parse; serializeToString := serialize; numberToString := number |}.

(** A page that shows a diagram: one description rendered, its attempt
    fulfilled. *)
Definition showing_diagram : World :=
  run platform
    [Render (Js.lit "graph TD; A-->B") 1000; Settle 0 (Fulfilled (Js.lit "<svg>A-B</svg>"))]
    init.

(** The [svg] element of that page. *)
Definition shown_svg : Node :=
  Elem "svg" []
    [("max-width", Js.lit "100%"); ("height", Js.lit "auto");
     ("background-color", Js.lit "transparent")]
    [Text (Js.lit "<svg>A-B</svg>")].

Definition env_int : ExportEnv :=
  {| viewBox := Some (120, 60)%Q; clientRect := (300, 150)%Q; context2d := true |}.

End Fixture.

(** ** URI components and escapes *)

Module Uri.

(** The characters [encodeURIComponent] leaves as they are: letters,
    digits and [- _ . ! ~ * ' ( )]. *)
Definition unreserved (c : N) : bool :=
  ((0x41 <=? c) && (c <=? 0x5A) || (0x61 <=? c) && (c <=? 0x7A) ||
   (0x30 <=? c) && (c <=? 0x39))%N ||
  bool_decide (c ∈ [0x2D; 0x5F; 0x2E; 0x21; 0x7E; 0x2A; 0x27; 0x28; 0x29]%N).

Definition hex_upper (n : N) : N :=
  (if n <? 10 then 0x30 + n else 0x41 + (n - 10))%N.

(** [%XX] for one octet. *)
Definition percent (b : N) : jsstring :=
  [0x25; hex_upper (b / 16); hex_upper (b mod 16)]%N.

Definition percent_encode (cp : N) : jsstring :=
  mjoin (percent <$> Encoding.utf8_of_code_point cp).

(** [encodeURIComponent(s)]; [None] is the [URIError] it throws on a
    surrogate without its partner. *)
Fixpoint encodeURIComponent (s : jsstring) : option jsstring :=
  match s with
  | [] => Some []
  | c :: s' =>
      if unreserved c then (c ::.) <$> encodeURIComponent s'
      else if Encoding.is_high_surrogate c then
        match s' with
        | d :: s'' =>
            if Encoding.is_low_surrogate d then
              let cp := (0x10000 + (c - 0xD800) * 0x400 + (d - 0xDC00))%N in
              (percent_encode cp ++.) <$> encodeURIComponent s''
            else None
        | [] => None
        end
      else if Encoding.is_low_surrogate c then None
      else (percent_encode c ++.) <$> encodeURIComponent s'
  end.

Definition hex_value (c : N) : option N :=
  (if (0x30 <=? c) && (c <=? 0x39) then Some (c - 0x30)
   else if (0x41 <=? c) && (c <=? 0x46) then Some (c - 0x41 + 10)
   else if (0x61 <=? c) && (c <=? 0x66) then Some (c - 0x61 + 10)
   else None)%N.

(** The code unit behind [%uXXXX] at the head of what follows a [%]. *)
Definition escape4 (s : jsstring) : option (N * jsstring) :=
  match s with
  | u :: a :: b :: c :: d :: rest =>
      if (u =? 0x75)%N then
        va ← hex_value a; vb ← hex_value b; vc ← hex_value c; vd ← hex_value d;
        Some (((va * 16 + vb) * 16 + vc) * 16 + vd, rest)%N
      else None
  | _ => None
  end.

(** The code unit behind [%XX]. *)
Definition escape2 (s : jsstring) : option (N * jsstring) :=
  match s with
  | a :: b :: rest =>
      va ← hex_value a; vb ← hex_value b; Some (va * 16 + vb, rest)%N
  | _ => None
  end.

(** [unescape(s)]: [%uXXXX] and [%XX] become the code unit they name, a
    [%] that starts neither stays.  [fuel] bounds the length of [s]. *)
Fixpoint unescape_fuel (fuel : nat) (s : jsstring) : jsstring :=
  match fuel with
  | O => []
  | S fuel' =>
      match s with
      | [] => []
      | c :: s' =>
          if (c =? 0x25)%N then
            match escape4 s' with
            | Some (v, rest) => v :: unescape_fuel fuel' rest
            | None =>
                match escape2 s' with
                | Some (v, rest) => v :: unescape_fuel fuel' rest
                | None => c :: unescape_fuel fuel' s'
                end
            end
          else c :: unescape_fuel fuel' s'
      end
  end.

Definition unescape (s : jsstring) : jsstring := unescape_fuel (length s) s.

End Uri.

(** ** JSON text *)

Module Json.

Definition hex_lower (n : N) : N :=
  (if n <? 10 then 0x30 + n else 0x61 + (n - 10))%N.

(** [\uXXXX], four lower-case hexadecimal digits. *)
Definition unicode_escape (c : N) : jsstring :=
  [0x5C; 0x75; hex_lower (c / 0x1000); hex_lower ((c / 0x100) mod 16);
   hex_lower ((c / 0x10) mod 16); hex_lower (c mod 16)]%N.

(** One code unit that is not half of a pair, as [QuoteJSONString] writes
    it: the short escapes, [\uXXXX] for the other control characters and
    for a surrogate on its own, and the unit itself otherwise. *)
Definition quote_unit (c : N) : jsstring :=
  (if c =? 0x08 then [0x5C; 0x62]
   else if c =? 0x09 then [0x5C; 0x74]
   else if c =? 0x0A then [0x5C; 0x6E]
   else if c =? 0x0C then [0x5C; 0x66]
   else if c =? 0x0D then [0x5C; 0x72]
   else if c =? 0x22 then [0x5C; 0x22]
   else if c =? 0x5C then [0x5C; 0x5C]
   else if (c <? 0x20) || Encoding.is_high_surrogate c || Encoding.is_low_surrogate c
        then unicode_escape c
   else [c])%N.

Fixpoint quote_body (s : jsstring) : jsstring :=
  match s with
  | [] => []
  | c :: s' =>
      if Encoding.is_high_surrogate c then
        match s' with
        | d :: s'' =>
            if Encoding.is_low_surrogate d then c :: d :: quote_body s''
            else quote_unit c ++ quote_body s'
        | [] => quote_unit c
        end
      else quote_unit c ++ quote_body s'
  end.

(** [JSON.stringify] of a string. *)
Definition quote (s : jsstring) : jsstring := [0x22]%N ++ quote_body s ++ [0x22]%N.

(** [JSON.stringify] of an object whose values are strings and whose keys
    need no escape, properties in the order given. *)
Fixpoint members (kvs : list (string * jsstring)) : jsstring :=
  match kvs with
  | [] => []
  | [(k, v)] => quote (Js.lit k) ++ [0x3A]%N ++ quote v
  | (k, v) :: kvs' => quote (Js.lit k) ++ [0x3A]%N ++ quote v ++ [0x2C]%N ++ members kvs'
  end.

Definition stringify (kvs : list (string * jsstring)) : jsstring :=
  [0x7B]%N ++ members kvs ++ [0x7D]%N.

End Json.

(** ** ChatInterface: the draw.io link (lines 26-61) *)

Module DrawIO.

(** What [generateDrawIOUrl] throws. *)
Inductive Failure :=
| UriMalformed
| TooLarge.

Definition message (e : Failure) : string :=
  match e with
  | UriMalformed => "URI malformed"
  | TooLarge => "Diagram too large for URL parameter"
  end.

Inductive Outcome :=
| Returned (url : jsstring)
| Threw (error : Failure).

Definition prefix : jsstring := Js.lit "https://app.diagrams.net/?create=".

(** The [try] block of [generateDrawIOUrl] (lines 27-46). *)
Definition build (mermaidContent : jsstring) : Outcome :=
  let payload := [("type", Js.lit "mermaid"); ("data", Js.trim mermaidContent)] in
  let jsonString := Json.stringify payload in
  match Uri.encodeURIComponent jsonString with
  | Some encodedPayload =>
      let drawioUrl := prefix ++ encodedPayload in
      if (2000 <? length drawioUrl)%nat then Threw TooLarge else Returned drawioUrl
  | None => Threw UriMalformed
  end.

(** [generateDrawIOUrl]: what it returns or throws, and what it logs; its
    [catch] block logs and throws again. *)
Definition generateDrawIOUrl (mermaidContent : jsstring) : list (string * Failure) * Outcome :=
  match build mermaidContent with
  | Returned url => ([], Returned url)
  | Threw error => ([("Error generating draw.io URL:", error)], Threw error)
  end.

(** The part of the page [handleOpenInDrawIO] acts on. *)
Record Page := {
  mermaidDiagram : jsstring;
  error : jsstring;
  opened : list (jsstring * string * string);   (* [window.open] calls *)
  logged : list (string * Failure);             (* [console.error] calls *)
}.

(** [handleOpenInDrawIO] (lines 53-61). *)
Definition handleOpenInDrawIO (p : Page) : Page :=
  match generateDrawIOUrl (mermaidDiagram p) with
  | (log, Returned drawioUrl) =>
      {| mermaidDiagram := mermaidDiagram p; error := error p;
         opened := opened p ++ [(drawioUrl, "_blank", "noopener,noreferrer")];
         logged := logged p ++ log |}
  | (log, Threw e) =>
      {| mermaidDiagram := mermaidDiagram p;
         error := Js.lit "Unable to open in draw.io: Diagram may be too large";
         opened := opened p;
         logged := logged p ++ log ++ [("Draw.io integration error:", e)] |}
  end.

End DrawIO.

(** ** ChatInterface: the form (lines 9-24, 63-92 and 108-178) *)

(** Patterns, as far as [youtubeRegex] needs them. *)
Module Regex.

Inductive t :=
| Lit (s : jsstring)        (* a run of pattern characters *)
| Class (p : N → bool)      (* a character class *)
| Seq (r1 r2 : t)
| Alt (r1 r2 : t)           (* [r1|r2] *)
| Opt (r : t)               (* [r?] *)
| Plus (r : t).             (* [r+] *)

(** The backtracking matcher: [m r s k] tries the ways in which [r]
    matches a prefix of [s], in the order of ECMA-262 (left alternative
    first, quantifiers greedy), until the continuation [k] accepts the
    rest.  An iteration of [r+] after the first one has to consume a code
    unit, so the length of [s] bounds the iterations that can follow. *)
Fixpoint m (r : t) (s : jsstring) (k : jsstring → bool) : bool :=
  match r with
  | Lit l => Js.starts_with l s && k (drop (length l) s)
  | Class p =>
      match s with
      | c :: s' => p c && k s'
      | [] => false
      end
  | Seq r1 r2 => m r1 s (λ s', m r2 s' k)
  | Alt r1 r2 => m r1 s k || m r2 s k
  | Opt r => m r s k || k s
  | Plus r =>
      (fix again (n : nat) (s : jsstring) : bool :=
         m r s (λ s', match n with
                      | S n' => again n' s'
                      | O => false
                      end || k s'))
        (length s) s
  end.

(** [/^r/.test(s)], no flags: the match starts at index 0 and may end
    anywhere. *)
Definition test (r : t) (s : jsstring) : bool := m r s (λ _, true).

(** [\w]. *)
Definition word (c : N) : bool :=
  ((0x41 <=? c) && (c <=? 0x5A) || (0x61 <=? c) && (c <=? 0x7A) ||
   (0x30 <=? c) && (c <=? 0x39) || (c =? 0x5F))%N.

End Regex.

Module Chat.

(** [[\w-]]. *)
Definition word_or_dash (c : N) : bool := Regex.word c || (c =? 0x2D)%N.

(** [/^(https?:\/\/)?(www\.)?(youtube\.com\/(watch\?v=|embed\/)|youtu\.be\/)[\w-]+/]
    (line 72). *)
Definition youtubeRegex : Regex.t :=
  Regex.Seq
    (Regex.Opt (Regex.Seq (Regex.Lit (Js.lit "http"))
                  (Regex.Seq (Regex.Opt (Regex.Lit (Js.lit "s"))) (Regex.Lit (Js.lit "://")))))
    (Regex.Seq
       (Regex.Opt (Regex.Lit (Js.lit "www.")))
       (Regex.Seq
          (Regex.Alt
             (Regex.Seq (Regex.Lit (Js.lit "youtube.com/"))
                (Regex.Alt (Regex.Lit (Js.lit "watch?v=")) (Regex.Lit (Js.lit "embed/"))))
             (Regex.Lit (Js.lit "youtu.be/")))
          (Regex.Plus (Regex.Class word_or_dash)))).

(** What the promise of [AgentService.processYouTubeUrl] is rejected with:
    an [Error] with its message, or any other value. *)
Inductive Rejection :=
| ErrorObject (message : jsstring)
| OtherValue.

(** The five state cells of the component, and what it has done to the
    world around it. *)
Record State := {
  ytUrl : jsstring;
  mermaidDiagram : jsstring;
  description : jsstring;
  isLoading : bool;
  error : jsstring;
  requests : list jsstring;                     (* [processYouTubeUrl] calls, by argument *)
  waiting : nat;                                (* [handleSubmit] calls suspended at their [await] *)
  exports : list jsstring;                      (* [downloadAsPNG] calls, by file name *)
  opened : list (jsstring * string * string);   (* [window.open] calls *)
  logged : list (string * DrawIO.Failure);      (* [console.error] calls *)
}.

Definition init : State :=
  {| ytUrl := []; mermaidDiagram := []; description := []; isLoading := false; error := [];
     requests := []; waiting := 0; exports := []; opened := []; logged := [] |}.

Definition set_ytUrl (v : jsstring) (s : State) : State :=
  {| ytUrl := v; mermaidDiagram := mermaidDiagram s; description := description s;
     isLoading := isLoading s; error := error s; requests := requests s;
     waiting := waiting s; exports := exports s; opened := opened s; logged := logged s |}.

Definition set_error (v : jsstring) (s : State) : State :=
  {| ytUrl := ytUrl s; mermaidDiagram := mermaidDiagram s; description := description s;
     isLoading := isLoading s; error := v; requests := requests s;
     waiting := waiting s; exports := exports s; opened := opened s; logged := logged s |}.

(** Line 17. *)
Definition isButtonDisabled (s : State) : bool :=
  isLoading s || negb (Js.truthy (Js.trim (ytUrl s))).

(** The name [handleDownload] asks for (line 21). *)
Definition download_name (now : Z) : jsstring :=
  Js.lit "youtube-diagram-" ++ Js.of_Z now ++ Js.lit ".png".

(** [handleDownload] (lines 19-24).  [mermaidRef.current] is the handle of
    the [MermaidRenderer], which is in the page while [mermaidDiagram] is
    not empty (line 151). *)
Definition handleDownload (now : Z) (s : State) : State :=
  if Js.truthy (mermaidDiagram s) then
    {| ytUrl := ytUrl s; mermaidDiagram := mermaidDiagram s; description := description s;
       isLoading := isLoading s; error := error s; requests := requests s;
       waiting := waiting s; exports := exports s ++ [download_name now];
       opened := opened s; logged := logged s |}
  else s.

(** The cells [handleOpenInDrawIO] acts on. *)
Definition page (s : State) : DrawIO.Page :=
  {| DrawIO.mermaidDiagram := mermaidDiagram s; DrawIO.error := error s;
     DrawIO.opened := opened s; DrawIO.logged := logged s |}.

Definition handleOpenInDrawIO (s : State) : State :=
  let p := DrawIO.handleOpenInDrawIO (page s) in
  {| ytUrl := ytUrl s; mermaidDiagram := DrawIO.mermaidDiagram p; description := description s;
     isLoading := isLoading s; error := DrawIO.error p; requests := requests s;
     waiting := waiting s; exports := exports s;
     opened := DrawIO.opened p; logged := DrawIO.logged p |}.

(** [handleSubmit] up to its [await] (lines 63-84). *)
Definition handleSubmit (s : State) : State :=
  if negb (Js.truthy (Js.trim (ytUrl s))) then
    set_error (Js.lit "Please enter a YouTube URL") s
  else if negb (Regex.test youtubeRegex (Js.trim (ytUrl s))) then
    set_error (Js.lit "Please enter a valid YouTube URL") s
  else
    {| ytUrl := ytUrl s; mermaidDiagram := []; description := []; isLoading := true;
       error := []; requests := requests s ++ [ytUrl s]; waiting := S (waiting s);
       exports := exports s; opened := opened s; logged := logged s |}.

(** [handleSubmit] from its [await] on, when the promise is fulfilled
    (lines 85-86 and 90). *)
Definition handleSubmit_fulfilled (mermaid descr : jsstring) (s : State) : State :=
  {| ytUrl := ytUrl s; mermaidDiagram := mermaid; description := descr; isLoading := false;
     error := error s; requests := requests s; waiting := pred (waiting s);
     exports := exports s; opened := opened s; logged := logged s |}.

(** The same, when it is rejected (lines 87-90). *)
Definition handleSubmit_rejected (err : Rejection) (s : State) : State :=
  {| ytUrl := ytUrl s; mermaidDiagram := mermaidDiagram s; description := description s;
     isLoading := false;
     error := match err with
              | ErrorObject message => message
              | OtherValue => Js.lit "An error occurred"
              end;
     requests := requests s; waiting := pred (waiting s);
     exports := exports s; opened := opened s; logged := logged s |}.

(** What can happen to the page: the user types, submits the form or
    clicks one of the two buttons over the diagram, or the promise of a
    request settles. *)
Inductive Action :=
| Change (value : jsstring)
| Submit
| ClickDrawIO
| ClickDownload (now : Z)
| Fulfil (mermaid descr : jsstring)
| Reject (err : Rejection).

(** Whether the page as rendered lets the action happen: the input is
    disabled while loading (line 114), the form submits through its button
    (line 122), the two buttons exist with the diagram (line 151), and a
    promise settles for a call that waits for it. *)
Definition offered (a : Action) (s : State) : bool :=
  match a with
  | Change _ => negb (isLoading s)
  | Submit => negb (isButtonDisabled s)
  | ClickDrawIO | ClickDownload _ => Js.truthy (mermaidDiagram s)
  | Fulfil _ _ | Reject _ => (0 <? waiting s)%nat
  end.

Definition handle (a : Action) (s : State) : State :=
  match a with
  | Change value => set_ytUrl value s
  | Submit => handleSubmit s
  | ClickDrawIO => handleOpenInDrawIO s
  | ClickDownload now => handleDownload now s
  | Fulfil mermaid descr => handleSubmit_fulfilled mermaid descr s
  | Reject err => handleSubmit_rejected err s
  end.

Definition act (s : State) (a : Action) : State :=
  if offered a s then handle a s else s.

Definition session (actions : list Action) : State := foldl act init actions.

End Chat.

(** ** vite.config.ts: the base path *)

Module Vite.

(** [s.split(sep)] for a separator of one code unit. *)
Fixpoint split (sep : N) (s : jsstring) : list jsstring :=
  match s with
  | [] => [[]]
  | c :: s' =>
      if (c =? sep)%N then [] :: split sep s'
      else match split sep s' with
           | piece :: pieces => (c :: piece) :: pieces
           | [] => [[c]]
           end
  end.

(** An array element in a template literal: [undefined] prints as such. *)
Definition interpolate (x : option jsstring) : jsstring :=
  default (Js.lit "undefined") x.

(** [base] of the first configuration (line 10). *)
Definition base_fixed (mode : jsstring) : jsstring :=
  if bool_decide (mode = Js.lit "production") then Js.lit "/cnm-demo/" else Js.lit "/".

(** [base] of the second configuration; [repository] is
    [process.env.GITHUB_REPOSITORY], [None] when the variable is not set. *)
Definition base (mode : jsstring) (repository : option jsstring) : jsstring :=
  if bool_decide (mode = Js.lit "production") then
    match repository with
    | Some r =>
        if Js.truthy r then Js.lit "/" ++ interpolate (split 0x2F r !! 1%nat) ++ Js.lit "/"
        else Js.lit "/cnm-demo/"
    | None => Js.lit "/cnm-demo/"
    end
  else Js.lit "/".

End Vite.

(** ** The vocabulary of the further properties *)

(** The payload of the draw.io link as text, around the quoted diagram. *)
Definition payload_open : jsstring :=
  [0x7B; 0x22]%N ++ Js.lit "type" ++ [0x22; 0x3A; 0x22]%N ++ Js.lit "mermaid" ++
  [0x22; 0x2C; 0x22]%N ++ Js.lit "data" ++ [0x22; 0x3A; 0x22]%N.

Definition payload_close : jsstring := [0x22; 0x7D]%N.

(** The same, encoded. *)
Definition encoded_open : jsstring :=
  Js.lit "%7B%22type%22%3A%22mermaid%22%2C%22data%22%3A%22".

Definition encoded_close : jsstring := Js.lit "%22%7D".

(** The strings of a pattern: [lang r a] says that [r] matches exactly
    [a]. *)
Fixpoint iterated (L : jsstring → Prop) (n : nat) (a : jsstring) : Prop :=
  match n with
  | O => a = []
  | S n' => ∃ a1 a2, a = a1 ++ a2 ∧ L a1 ∧ iterated L n' a2
  end.

Fixpoint lang (r : Regex.t) (a : jsstring) : Prop :=
  match r with
  | Regex.Lit l => a = l
  | Regex.Class p => ∃ c, a = [c] ∧ p c = true
  | Regex.Seq r1 r2 => ∃ a1 a2, a = a1 ++ a2 ∧ lang r1 a1 ∧ lang r2 a2
  | Regex.Alt r1 r2 => lang r1 a ∨ lang r2 a
  | Regex.Opt r => a = [] ∨ lang r a
  | Regex.Plus r => ∃ n, iterated (lang r) (S n) a
  end.

(** A YouTube address as the form takes it: an optional scheme, an
    optional [www.], one of three hosts with their paths, and at least one
    character of a video id; anything may follow. *)
Definition youtube_shape (u : jsstring) : Prop :=
  ∃ scheme www host c rest,
    scheme ∈ [[]; Js.lit "http://"; Js.lit "https://"] ∧
    www ∈ [[]; Js.lit "www."] ∧
    host ∈ [Js.lit "youtube.com/watch?v="; Js.lit "youtube.com/embed/"; Js.lit "youtu.be/"] ∧
    Chat.word_or_dash c = true ∧
    u = scheme ++ www ++ host ++ c :: rest.

(** The state of the form between requests, and while one is under way. *)
Definition idle (s : Chat.State) : Prop :=
  Chat.isLoading s = false ∧ Chat.waiting s = 0%nat.

Definition loading (s : Chat.State) : Prop :=
  Chat.isLoading s = true ∧ Chat.waiting s = 1%nat ∧
  Chat.mermaidDiagram s = [] ∧ Chat.description s = [] ∧ Chat.error s = [].

(** The value a list of declarations gives to a property. *)
Fixpoint declared (k : string) (l : list (string * jsstring)) : option jsstring :=
  match l with
  | [] => None
  | (k', v) :: l' => if bool_decide (k' = k) then Some v else declared k l'
  end.

(** ** Properties *)

(** Case analysis on what a callback of the exporter finds pending. *)
Ltac callback_cases :=
  unfold img_onload, img_onerror, toBlob_callback; repeat case_match; try done.

(** *** Strings *)

Lemma trim_start_blank (s : jsstring) :
  Forall (λ c, Js.is_white_space c = true) s → Js.trim_start s = [].
Proof.
  induction 1 as [|c s Hc _ IH]; simpl; [done|]. by rewrite Hc.
Qed.

Lemma trim_blank (s : jsstring) :
  Forall (λ c, Js.is_white_space c = true) s → Js.trim s = [].
Proof. intros H. unfold Js.trim. by rewrite trim_start_blank. Qed.

Lemma shows_div_blank (s : jsstring) :
  Forall (λ c, Js.is_white_space c = true) s → shows_div s = false.
Proof. intros H. unfold shows_div. by rewrite trim_blank. Qed.

Lemma replace_miss (pat rep : jsstring) (c : N) (s : jsstring) :
  Js.starts_with pat (c :: s) = false →
  Js.replace pat rep (c :: s) = c :: Js.replace pat rep s.
Proof. intros H. simpl. by rewrite H. Qed.

(** No occurrence of [.png] begins in [b] and ends in a [.png] that
    follows it. *)
Lemma png_no_straddle (c : N) (b : jsstring) :
  Js.starts_with (Js.lit ".png") (c :: b) = false →
  Js.starts_with (Js.lit ".png") (c :: b ++ Js.lit ".png") = false.
Proof.
  change (Js.lit ".png") with [46; 112; 110; 103]%N.
  destruct b as [|b1 [|b2 [|b3 b]]]; simpl;
    repeat match goal with
           | |- context [(?x =? ?y)%N] => destruct (x =? y)%N; simpl
           end; done.
Qed.

(** A name that ends in [.png] and holds no other [.png] is saved with
    that extension exchanged for [.svg]. *)
Lemma fallback_filename_suffix (base : jsstring) :
  Js.includes (Js.lit ".png") base = false →
  fallback_filename (base ++ Js.lit ".png") = base ++ Js.lit ".svg".
Proof.
  unfold fallback_filename. induction base as [|c b IH]; [done|].
  intros H. cbn [Js.includes] in H. apply orb_false_elim in H as [Hhere Hrest].
  rewrite <- app_comm_cons, replace_miss by by apply png_no_straddle.
  by rewrite IH.
Qed.

Lemma fallback_filename_default :
  fallback_filename (requested None) = Js.lit "mermaid-diagram.svg".
Proof. reflexivity. Qed.

Lemma decimal_digits (fuel : nat) (n : N) (acc : jsstring) :
  (n < 10 ^ N.of_nat fuel)%N →
  decimal 0 (Js.digits fuel n acc) = decimal n acc.
Proof.
  revert n acc. induction fuel as [|fuel IH]; intros n acc Hn.
  - simpl in Hn. by replace n with 0%N by lia.
  - cbn [Js.digits]. destruct (N.ltb_spec n 10) as [Hlt|Hge].
    + cbn [decimal foldl]. f_equal. rewrite N.mod_small by done. lia.
    + rewrite IH.
      * cbn [decimal foldl]. f_equal.
        pose proof (N.div_mod n 10 ltac:(done)) as Hdm. clear Hn IH.
        set (q := (n / 10)%N) in *. set (r := (n mod 10)%N) in *. lia.
      * rewrite Nat2N.inj_succ, N.pow_succ_r' in Hn.
        apply N.Div0.div_lt_upper_bound. lia.
Qed.

Lemma decimal_of_Z (z : Z) : 0 ≤ z → decimal 0 (Js.of_Z z) = Z.to_N z.
Proof.
  intros Hz. destruct z as [|p|p]; [done| |lia].
  unfold Js.of_Z. rewrite decimal_digits; [done|].
  rewrite Nat2N.inj_succ, N2Nat.id.
  destruct (N.log2_spec (N.pos p) ltac:(done)) as [_ Hlt].
  eapply N.lt_le_trans; [exact Hlt|].
  apply N.pow_le_mono_l. lia.
Qed.

(** Attempts started at different clock readings have different
    identifiers: the identifier determines the reading. *)
Lemma identifier_determines_instant (t1 t2 : Z) :
  0 ≤ t1 → 0 ≤ t2 →
  Js.lit "mermaid-" ++ Js.of_Z t1 = Js.lit "mermaid-" ++ Js.of_Z t2 → t1 = t2.
Proof.
  intros H1 H2 Heq. apply app_inv_head in Heq.
  apply (f_equal (decimal 0)) in Heq. rewrite !decimal_of_Z in Heq by done. lia.
Qed.

(** *** The document *)

Lemma Node_forall_ind (Q : Node → Prop) :
  (∀ d, Q (Text d)) →
  (∀ t a s kids, Forall Q kids → Q (Elem t a s kids)) →
  ∀ n, Q n.
Proof.
  intros HT HE. fix IH 1. intros [t a s kids|d]; [|apply HT].
  apply HE. induction kids as [|k kids IHk]; constructor; [apply IH|exact IHk].
Qed.

Lemma scan_path (find : Node → option (list nat * Node)) (i : nat) (ns : list Node)
    (p : list nat) (m : Node) :
  Dom.scan find i ns = Some (p, m) → ∃ j q, p = j :: q.
Proof.
  revert i. induction ns as [|n ns IH]; intros i; simpl; [done|].
  destruct (find n) as [[q m']|]; [|by apply IH].
  intros [= <- <-]. by eexists _, _.
Qed.

Lemma scan_found (find : Node → option (list nat * Node)) (i : nat) (ns : list Node)
    (p : list nat) (m : Node) :
  Dom.scan find i ns = Some (p, m) →
  ∃ j q n, p = (i + j)%nat :: q ∧ ns !! j = Some n ∧ find n = Some (q, m).
Proof.
  revert i. induction ns as [|n ns IH]; intros i; simpl; [done|].
  destruct (find n) as [[q m']|] eqn:Hn.
  - intros [= <- <-]. exists 0%nat, q, n. by rewrite Nat.add_0_r.
  - intros H. destruct (IH _ H) as (j & q & n' & -> & Hj & Hq).
    exists (S j), q, n'. split; [f_equal; lia|done].
Qed.

Lemma querySelector_path (t : string) (n : Node) (p : list nat) (m : Node) :
  Dom.querySelector t n = Some (p, m) → ∃ j q, p = j :: q.
Proof. destruct n; [|done]. apply scan_path. Qed.

(** What [find_element] returns is the node at the path it returns, and
    an element of the name asked for. *)
Lemma find_element_sound (t : string) (n : Node) (p : list nat) (m : Node) :
  Dom.find_element t n = Some (p, m) →
  Dom.subtree p n = Some m ∧ ∃ a s kids, m = Elem t a s kids.
Proof.
  revert p. induction n as [d|tag a s kids IH] using Node_forall_ind; intros p; simpl; [done|].
  case_bool_decide as Htag.
  - intros [= <- <-]. subst tag. split; [done|]. by eexists _, _, _.
  - intros H. destruct (scan_found _ _ _ _ _ H) as (j & q & k & -> & Hj & Hq).
    simpl. rewrite Hj. simpl.
    rewrite Forall_lookup in IH. by apply (IH j k Hj).
Qed.

Lemma querySelector_sound (t : string) (n : Node) (p : list nat) (m : Node) :
  Dom.querySelector t n = Some (p, m) →
  Dom.subtree p n = Some m ∧ ∃ a s kids, m = Elem t a s kids.
Proof.
  destruct n as [tag a s kids|d]; simpl; [|done].
  intros H. destruct (scan_found _ _ _ _ _ H) as (j & q & k & -> & Hj & Hq).
  simpl. rewrite Hj. simpl. by apply find_element_sound.
Qed.

Lemma modify_is_element (p : list nat) (f : Node → Node) (n : Node) :
  (∀ m, is_element m → is_element (f m)) →
  is_element n → is_element (Dom.modify p f n).
Proof.
  intros Hf (t & a & s & kids & ->). destruct p as [|i p]; simpl.
  - apply Hf. by eexists _, _, _, _.
  - by eexists _, _, _, _.
Qed.

Lemma set_children_is_element (kids : list Node) (n : Node) :
  is_element n → is_element (Dom.set_children kids n).
Proof. intros (t & a & s & k & ->). by eexists _, _, _, _. Qed.

Lemma set_style_is_element (k : string) (v : jsstring) (n : Node) :
  is_element n → is_element (Dom.set_style k v n).
Proof. intros (t & a & s & kids & ->). by eexists _, _, _, _. Qed.

Lemma restyle_children (p : list nat) (t : string) (a s : list (string * jsstring))
    (kids : list Node) (j : nat) (q : list nat) :
  p = j :: q →
  restyle p (Elem t a s kids) = Elem t a s (Dom.children (restyle p (Elem "div" [] [] kids))).
Proof. by intros ->. Qed.

(** *** References into the heap *)

Lemma mounted_at (w : World) (l : nat) :
  mermaidRef w = Some l → mounted w = heap w !! l.
Proof. unfold mounted. by intros ->. Qed.

(** The resumption of an attempt writes its outcome into whatever element
    the ref points to at that moment.  Neither the description the attempt
    was started for nor the current one is consulted. *)
Lemma update_lookup (l : nat) (p : list nat) (f : Node → Node) (w : World) :
  heap (W.update (l, p) f w) !! l = Dom.modify p f <$> heap w !! l.
Proof. unfold W.update; simpl. apply lookup_alter_eq. Qed.

Lemma set_innerHTML_mounted (P : Platform) (w : World) (l : nat) (html : jsstring)
    (t : string) (a s : list (string * jsstring)) (kids : list Node) :
  heap w !! l = Some (Elem t a s kids) →
  heap (set_innerHTML P l html w) !! l = Some (Elem t a s (parseHTML P html)).
Proof. intros Hl. unfold set_innerHTML; simpl. by rewrite lookup_alter_eq, Hl. Qed.

(** The reference [downloadAsPNG] and [renderChart] hold as [svgElement]
    points to the element that was found. *)
Lemma svgElement_deref (w : World) (l : nat) (p : list nat) (svg : Node) :
  mermaidRef w = Some l →
  mounted w ≫= Dom.querySelector "svg" = Some (p, svg) →
  W.deref (l, p) w = Some svg ∧ ∃ a s kids, svg = Elem "svg" a s kids.
Proof.
  intros Hl. rewrite (mounted_at w l Hl). unfold W.deref; simpl.
  destruct (heap w !! l) as [div|]; [|done]. simpl. apply querySelector_sound.
Qed.

Lemma fresh_tree_distinct (w : World) (l : nat) (n : Node) :
  heap w !! l = Some n → fresh (dom (heap w)) ≠ l.
Proof.
  intros Hl Heq. apply (is_fresh (dom (heap w))). rewrite Heq.
  apply elem_of_dom. by exists n.
Qed.

Lemma attached_alt (w : World) :
  attached w ↔ ∀ l, mermaidRef w = Some l → ∃ n, heap w !! l = Some n ∧ is_element n.
Proof.
  split; intros H l Hl; destruct (H l Hl) as (x & Hx).
  - destruct Hx as (a & s & kids & Hx). eexists. split; [done|]. by eexists _, _, _, _.
  - destruct Hx as (Hx & t & a & s & kids & ->). by eexists _, _, _, _.
Qed.

Lemma update_attached (r : NodeRef) (f : Node → Node) (w : World) :
  (∀ m, is_element m → is_element (f m)) →
  attached w → attached (W.update r f w).
Proof.
  intros Hf Hatt. apply attached_alt. intros l Hl. simpl in Hl.
  destruct (proj1 (attached_alt w) Hatt l Hl) as (n & Hn & Hel).
  unfold W.update; simpl. destruct (decide (r.1 = l)) as [->|Hne].
  - rewrite lookup_alter_eq, Hn. simpl. eexists. split; [done|]. by apply modify_is_element.
  - rewrite lookup_alter_ne by done. by exists n.
Qed.

Lemma attached_same_heap (w w' : World) :
  mermaidRef w' = mermaidRef w → heap w' = heap w → attached w → attached w'.
Proof. intros Hr Hh Hatt l Hl. rewrite Hh. apply Hatt. by rewrite <- Hr. Qed.

Lemma attached_init : attached init.
Proof. intros l Hl. discriminate. Qed.

Lemma commit_attached (c : jsstring) (w : World) :
  attached w → attached (commit c w).
Proof.
  intros Hatt. unfold commit. destruct (shows_div c); [|by intros l Hl].
  destruct (mermaidRef w) as [l|] eqn:Hl; [done|].
  intros l' [= <-]. simpl. rewrite lookup_insert_eq. by eexists _, _, _, _.
Qed.

Lemma renderChart_start_attached (P : Platform) (c : jsstring) (now : Z) (w : World) :
  attached w → attached (renderChart_start P c now w).
Proof.
  intros Hatt. unfold renderChart_start. destruct (mermaidRef w) as [l|] eqn:Hl; [|done].
  destruct (Js.truthy (Js.trim c)); [|done].
  apply (attached_same_heap
           (set_innerHTML P l [] (W.log (console_log "Mermaid diagram syntax:" c) w)));
    [done..|].
  apply update_attached; [apply set_children_is_element|].
  by apply (attached_same_heap w).
Qed.

Lemma renderChart_catch_keeps_attached (P : Platform) (error : Thrown) (w : World) :
  attached w → attached (renderChart_catch P error w).
Proof.
  intros Hatt. unfold renderChart_catch.
  change (mermaidRef (W.log ?e w)) with (mermaidRef w).
  destruct (mermaidRef w) as [l|] eqn:Hl.
  - apply update_attached; [apply set_children_is_element|]. by apply (attached_same_heap w).
  - by apply (attached_same_heap w).
Qed.

Lemma renderChart_resume_attached (P : Platform) (o : Settled) (w : World) :
  attached w → attached (renderChart_resume P o w).
Proof.
  intros Hatt. destruct o as [svg|error]; cbn [renderChart_resume];
    [|by apply renderChart_catch_keeps_attached].
  destruct (mermaidRef w) as [l|] eqn:Hl; [|by apply renderChart_catch_keeps_attached].
  assert (attached (set_innerHTML P l svg w)) as Hset
    by (apply update_attached; [apply set_children_is_element|done]).
  destruct (heap (set_innerHTML P l svg w) !! l ≫= Dom.querySelector "svg") as [[p m]|]; [|done].
  repeat (apply update_attached; [apply set_style_is_element|]). done.
Qed.

(** *** The exporter and the document *)

(** The duplicate is a new tree: the trees there were are as they were. *)
Lemma clone_with_size_frame (P : Platform) (env : ExportEnv) (svg : Node) (w : World) :
  same_but_heap w (clone_with_size P env svg w).2 ∧
  ∀ l n, heap w !! l = Some n → heap (clone_with_size P env svg w).2 !! l = Some n.
Proof.
  split; [by repeat split|].
  intros l n Hl. unfold clone_with_size; simpl.
  pose proof (fresh_tree_distinct w l n Hl) as Hne.
  by rewrite !lookup_alter_ne, lookup_insert_ne.
Qed.

(** The duplicate, read back through its reference: the element found with
    [width] and [height] assigned. *)
Lemma clone_with_size_deref (P : Platform) (env : ExportEnv) (svg : Node) (w : World) :
  W.deref (clone_with_size P env svg w).1 (clone_with_size P env svg w).2 =
  Some (Dom.set_attribute "height" (numberToString P (svgHeight env))
          (Dom.set_attribute "width" (numberToString P (svgWidth env)) svg)).
Proof.
  unfold clone_with_size, W.deref; simpl.
  by rewrite !lookup_alter_eq, lookup_insert_eq.
Qed.

Lemma load_image_frame (P : Platform) (fn : jsstring) (env : ExportEnv) (r : NodeRef) (w : World) :
  heap (load_image P fn env r w) = heap w ∧
  mermaidRef (load_image P fn env r w) = mermaidRef w ∧
  downloads (load_image P fn env r w) = downloads w ∧
  console (load_image P fn env r w) = console w.
Proof.
  unfold load_image. destruct (W.deref r w); [|done].
  by destruct (Encoding.utf8_encode _).
Qed.

Lemma downloadAsPNG_frame (P : Platform) (fn : option jsstring) (env : ExportEnv) (w : World) :
  mermaidRef (downloadAsPNG P fn env w) = mermaidRef w ∧
  ∀ l n, heap w !! l = Some n → heap (downloadAsPNG P fn env w) !! l = Some n.
Proof.
  unfold downloadAsPNG. destruct (mermaidRef w) as [m|] eqn:Hm; [|done].
  destruct (heap w !! m ≫= Dom.querySelector "svg") as [[p svg]|]; [|done].
  destruct (clone_with_size_frame P env svg w) as [Hsame Hheap].
  destruct (clone_with_size P env svg w) as [r w1]; simpl in *.
  destruct Hsame as (_ & Href & _).
  destruct (context2d env).
  - destruct (load_image_frame P (requested fn) env r w1) as (Hh & Hr & _).
    rewrite Hh, Hr. split; [congruence|done].
  - split; [congruence|done].
Qed.

Lemma exporter_frame (P : Platform) (e : Event) (w : World) :
  of_exporter e = true →
  mermaidRef (step P e w) = mermaidRef w ∧
  ∀ l n, heap w !! l = Some n → heap (step P e w) !! l = Some n.
Proof.
  destruct e as [| |fn env|k t|k|k png]; try done; intros _; simpl;
    [apply downloadAsPNG_frame|callback_cases..].
Qed.

Lemma downloadAsPNG_mounted (P : Platform) (fn : option jsstring) (env : ExportEnv) (w : World) :
  mounted (downloadAsPNG P fn env w) = mounted w.
Proof.
  destruct (downloadAsPNG_frame P fn env w) as [Href Hheap].
  unfold mounted. rewrite Href. destruct (mermaidRef w) as [l|] eqn:Hm; [|done]; simpl.
  destruct (heap w !! l) as [n|] eqn:Hl; [by apply Hheap|].
  unfold downloadAsPNG. by rewrite Hm, Hl.
Qed.

Lemma exporter_mounted (P : Platform) (e : Event) (w : World) :
  of_exporter e = true → mounted (step P e w) = mounted w.
Proof.
  destruct e as [| |fn env|k t|k|k png]; try done; intros _; simpl;
    [apply downloadAsPNG_mounted|callback_cases..].
Qed.

(** The ref is sound in the initial state and stays so: whenever it is not
    [null] it points to an element. *)
Lemma step_attached (P : Platform) (e : Event) (w : World) :
  attached w → attached (step P e w).
Proof.
  intros Hatt. destruct e as [c now|k o|fn env|k t|k|k png]; simpl.
  - unfold render. pose proof (commit_attached c w Hatt) as Hc.
    assert (attached (W.set_chart (Some c) (commit c w))) as Hc'
      by by apply (attached_same_heap (commit c w)).
    destruct (bool_decide (chart w = Some c)); [done|].
    apply renderChart_start_attached. by apply (attached_same_heap (W.set_chart (Some c) (commit c w))).
  - unfold settle. destruct (attempts w !! k); [|done].
    apply renderChart_resume_attached. by apply (attached_same_heap w).
  - destruct (downloadAsPNG_frame P fn env w) as [Href Hheap].
    intros l Hl. rewrite Href in Hl. destruct (Hatt l Hl) as (t & a & s & kids & Hn).
    exists t, a, s, kids. by apply Hheap.
  - callback_cases; by apply (attached_same_heap w).
  - callback_cases; by apply (attached_same_heap w).
  - callback_cases; by apply (attached_same_heap w).
Qed.

Lemma run_attached (P : Platform) (es : list Event) (w : World) :
  attached w → attached (run P es w).
Proof.
  revert w. induction es as [|e es IH]; intros w Hatt; [done|].
  apply IH. by apply step_attached.
Qed.


(** X16.  Once the ref is [null], nothing but a render brings an element
    back: no attempt that settles later and no export puts anything on the
    page. *)
Lemma detached_stays (P : Platform) (e : Event) (w : World) :
  mermaidRef w = None →
  (∀ c now, e ≠ Render c now) →
  mermaidRef (step P e w) = None ∧ mounted (step P e w) = None.
Proof.
  intros Hw He.
  assert (mermaidRef (step P e w) = None) as Href.
  { destruct e as [c now|k o|fn env|k t|k|k png]; simpl.
    - by destruct (He c now).
    - unfold settle, renderChart_resume, renderChart_catch.
      repeat case_match; simplify_eq/=; done.
    - by rewrite (proj1 (downloadAsPNG_frame P fn env w)).
    - callback_cases.
    - callback_cases.
    - callback_cases. }
  split; [done|]. unfold mounted. by rewrite Href.
Qed.

(** C6.  The call of [downloadAsPNG] and each of its callbacks leave every
    tree of the document as it was, the mounted one among them: the element
    shown in the page and its serialized form are the same after as before.
    All the writes of the export go to the duplicate. *)
Theorem export_leaves_mount_untouched (P : Platform) (e : Event) (w : World) :
  of_exporter e = true →
  mounted (step P e w) = mounted w ∧
  serialized_svg P (step P e w) = serialized_svg P w ∧
  ∀ l n, heap w !! l = Some n → heap (step P e w) !! l = Some n.
Proof.
  intros He. split; [|split].
  - by apply exporter_mounted.
  - unfold serialized_svg. by rewrite exporter_mounted.
  - by apply exporter_frame.
Qed.

Lemma export_leaves_mount_untouched_witness :
  of_exporter (Export None Fixture.env_int) = true ∧
  mounted (step Fixture.platform (Export None Fixture.env_int) Fixture.showing_diagram)
  = mounted Fixture.showing_diagram.
Proof.
  split; [reflexivity|].
  exact (proj1 (export_leaves_mount_untouched Fixture.platform
                  (Export None Fixture.env_int) Fixture.showing_diagram eq_refl)).
Defined.

(** C5.  With no [svg] element in the page (no element behind the ref, or
    one that holds no [svg]) the call returns at once: the state after it is
    the state before it, so no file, nothing logged, nothing pending. *)
Theorem export_with_nothing_mounted (P : Platform) (fn : option jsstring) (env : ExportEnv) (w : World) :
  mounted w ≫= Dom.querySelector "svg" = None →
  step P (Export fn env) w = w.
Proof.
  unfold mounted; simpl. unfold downloadAsPNG.
  destruct (mermaidRef w) as [l|]; [|done]; simpl.
  by intros ->.
Qed.

Lemma export_with_nothing_mounted_witness :
  mounted init ≫= Dom.querySelector "svg" = None ∧
  step Fixture.platform (Export None Fixture.env_int) init = init.
Proof.
  split; [reflexivity|].
  apply (export_with_nothing_mounted Fixture.platform None Fixture.env_int init).
  reflexivity.
Defined.

(** C10.  With an [svg] element in the page and no 2D context, the call
    returns after the duplicate is made and before anything is serialized:
    no file, no image to decode, no encoding under way, nothing logged,
    nothing thrown, and the page as it was. *)
Theorem export_without_context (P : Platform) (fn : option jsstring) (env : ExportEnv)
    (w : World) (p : list nat) (svg : Node) :
  mounted w ≫= Dom.querySelector "svg" = Some (p, svg) →
  context2d env = false →
  let w' := step P (Export fn env) w in
  downloads w' = downloads w ∧ images w' = images w ∧ encodings w' = encodings w ∧
  console w' = console w ∧ uncaught w' = uncaught w ∧ mounted w' = mounted w.
Proof.
  intros Hsvg Hctx w'. subst w'.
  repeat split; [..|by apply exporter_mounted]; simpl;
    unfold mounted in Hsvg; unfold downloadAsPNG;
    (destruct (mermaidRef w) as [l|]; [|done]); simpl in Hsvg; rewrite Hsvg;
    destruct (clone_with_size_frame P env svg w) as [Hsame _];
    destruct (clone_with_size P env svg w) as [r w1]; simpl in *;
    rewrite Hctx; apply Hsame.
Qed.

Lemma export_without_context_witness :
  let env := {| viewBox := Some (120, 60)%Q; clientRect := (300, 150)%Q; context2d := false |} in
  let w := Fixture.showing_diagram in
  let w' := step Fixture.platform (Export None env) w in
  (∃ p svg, mounted w ≫= Dom.querySelector "svg" = Some (p, svg)) ∧
  downloads w' = downloads w ∧ images w' = images w ∧ encodings w' = encodings w ∧
  console w' = console w ∧ uncaught w' = uncaught w ∧ mounted w' = mounted w.
Proof.
  intros env w w'. split.
  - eexists _, _. vm_compute. reflexivity.
  - eapply (export_without_context Fixture.platform None env w); [vm_compute|]; reflexivity.
Defined.

(** *** The pixel surface *)

Lemma reflect_unsigned_long_in_range (d : Z) (x : Q) :
  (0 <= x)%Q → (x <= 2147483647)%Q → Num.reflect_unsigned_long d (Some x) = Qfloor x.
Proof.
  intros H0 Hmax. unfold Num.reflect_unsigned_long, Num.to_unsigned_long, Num.truncate.
  apply Qle_bool_iff in H0 as H0'. rewrite H0'.
  assert (0 ≤ Qfloor x) as Hlo by (change 0 with (Qfloor 0); by apply Qfloor_resp_le).
  assert (Qfloor x ≤ 2147483647) as Hhi
    by (change 2147483647 with (Qfloor 2147483647); by apply Qfloor_resp_le).
  rewrite Z.mod_small by lia.
  destruct (Z.leb_spec (Qfloor x) 2147483647); [done|lia].
Qed.

Lemma padded_80 (x : Q) : padded x = Num.add (Some x) (Some 80%Q).
Proof. unfold padded. f_equal. Qed.

Lemma export_canvas_width (env : ExportEnv) :
  cv_width (export_canvas env) =
  Num.reflect_unsigned_long 300 (Num.mul (Num.add (Some (svgWidth env)) (Some 80%Q)) (Some 2%Q)).
Proof.
  unfold export_canvas, Cv.fillRect. rewrite <- padded_80.
  by destruct (padded (svgWidth env)), (padded (svgHeight env)).
Qed.

Lemma export_canvas_height (env : ExportEnv) :
  cv_height (export_canvas env) =
  Num.reflect_unsigned_long 150 (Num.mul (Num.add (Some (svgHeight env)) (Some 80%Q)) (Some 2%Q)).
Proof.
  unfold export_canvas, Cv.fillRect. rewrite <- padded_80.
  by destruct (padded (svgWidth env)), (padded (svgHeight env)).
Qed.

(** What an export appends to the pending images, if anything: one image,
    whose canvas is [export_canvas] and whose name is the requested one. *)
Lemma downloadAsPNG_images (P : Platform) (fn : option jsstring) (env : ExportEnv) (w : World) :
  images (downloadAsPNG P fn env w) = images w ∨
  ∃ im, images (downloadAsPNG P fn env w) = images w ++ [im] ∧
        img_canvas im = export_canvas env ∧ img_filename im = requested fn ∧
        img_svgWidth im = svgWidth env ∧ img_svgHeight im = svgHeight env.
Proof.
  unfold downloadAsPNG. destruct (mermaidRef w) as [l|]; [|by left].
  destruct (heap w !! l ≫= Dom.querySelector "svg") as [[p svg]|]; [|by left].
  destruct (clone_with_size_frame P env svg w) as [Hsame _].
  destruct (clone_with_size P env svg w) as [r w1]; simpl in *.
  destruct Hsame as (_ & _ & _ & _ & Him & _).
  destruct (context2d env); [|by left].
  unfold load_image. destruct (W.deref r w1); [|by left].
  destruct (Encoding.utf8_encode _); [|by left].
  right. eexists. simpl. rewrite Him. by repeat split.
Qed.

(** *** Binary64 arithmetic on whole numbers *)

Lemma Qred_inject_Z (z : Z) : Qred (inject_Z z) = inject_Z z.
Proof. apply Qcanon.Qred_identity. simpl. apply Z.gcd_1_r. Qed.

Lemma round_half_even_Z (z : Z) : Num.round_half_even (inject_Z z) = z.
Proof.
  unfold Num.round_half_even. rewrite Qfloor_Z.
  replace (inject_Z z - inject_Z z ?= 1 # 2)%Q with Lt; [done|].
  symmetry. unfold Qcompare, Qminus, Qplus, Qopp, inject_Z; simpl.
  apply Z.compare_lt_iff. lia.
Qed.

(** A whole number below [2^53] is a binary64 value. *)
Lemma round_whole (z : Z) : 0 ≤ z < 2 ^ 53 → Num.round (inject_Z z) = Some (inject_Z z).
Proof.
  intros [Hlo Hhi]. destruct z as [|a|a]; [done| |lia].
  unfold Num.round. cbn [Qnum Qden inject_Z].
  assert (Num.binade a 1 = Z.log2 (Z.pos a)) as ->.
  { unfold Num.binade. change (Z.log2 1) with 0. rewrite Z.sub_0_r.
    destruct (Z.log2_spec (Z.pos a) ltac:(done)) as [Hle _].
    pose proof (Z.log2_nonneg (Z.pos a)) as Hnn.
    destruct (Z.leb_spec 0 (Z.log2 (Z.pos a))); [|lia].
    destruct (Z.leb_spec (1 * 2 ^ Z.log2 (Z.pos a)) (Z.pos a)); [done|lia]. }
  set (d := Z.log2 (Z.pos a)).
  assert (0 ≤ d ≤ 52) as Hd.
  { split; [apply Z.log2_nonneg|]. apply Z.lt_succ_r, Z.log2_lt_pow2; [done|exact Hhi]. }
  rewrite Z.max_l by lia.
  assert (0 < 2 ^ (52 - d)) as Hpow by (apply Z.pow_pos_nonneg; lia).
  assert (Num.scale2 (inject_Z (Z.pos a)) (52 - d) = inject_Z (Z.pos a * 2 ^ (52 - d))) as ->.
  { unfold Num.scale2. destruct (Z.leb_spec 0 (52 - d)); [|lia].
    unfold Qmult, inject_Z; simpl. done. }
  rewrite round_half_even_Z.
  assert (Num.scale2 (inject_Z (Z.pos a * 2 ^ (52 - d))) (d - 52) == inject_Z (Z.pos a))%Q as Hy.
  { unfold Num.scale2. destruct (Z.leb_spec 0 (d - 52)).
    - replace (d - 52) with 0 by lia. replace (52 - d) with 0 by lia.
      unfold Qeq, Qmult, inject_Z; simpl. lia.
    - replace (- (d - 52)) with (52 - d) by lia.
      rewrite inject_Z_mult. field.
      intros H0. unfold Qeq in H0. simpl in H0. lia. }
  set (y := Num.scale2 _ _) in *.
  replace (Qle_bool (inject_Z (2 ^ 1024)) (Qabs y)) with false.
  - f_equal. rewrite <- Qred_inject_Z. apply Qred_complete. exact Hy.
  - symmetry. apply not_true_iff_false. intros Hbig. apply Qle_bool_iff in Hbig.
    assert (Qabs y == inject_Z (Z.pos a))%Q as Habs.
    { rewrite Hy. apply Qabs_pos. change 0%Q with (inject_Z 0). by rewrite <- Zle_Qle. }
    rewrite Habs in Hbig. rewrite <- Zle_Qle in Hbig.
    assert (2 ^ 53 < 2 ^ 1024) by (apply Z.pow_lt_mono_r; lia). lia.
Qed.

Lemma add_whole (x : Q) (n k : Z) :
  (x == inject_Z n)%Q → 0 ≤ n + k < 2 ^ 53 →
  Num.add (Some x) (Some (inject_Z k)) = Some (inject_Z (n + k)).
Proof.
  intros Hx Hr. cbn [Num.add mbind option_bind].
  replace (Qred (x + inject_Z k)) with (inject_Z (n + k)); [by apply round_whole|].
  rewrite <- Qred_inject_Z. apply Qred_complete. by rewrite Hx, inject_Z_plus.
Qed.

Lemma mul_whole (n k : Z) :
  0 ≤ n * k < 2 ^ 53 →
  Num.mul (Some (inject_Z n)) (Some (inject_Z k)) = Some (inject_Z (n * k)).
Proof.
  intros Hr. cbn [Num.mul mbind option_bind].
  replace (Qred (inject_Z n * inject_Z k)) with (inject_Z (n * k)); [by apply round_whole|].
  rewrite <- Qred_inject_Z. apply Qred_complete. by rewrite inject_Z_mult.
Qed.

(** For a whole dimension the padded and scaled size is computed without
    rounding. *)
Lemma pad_scale_whole (x : Q) (n : Z) :
  0 ≤ n → (n + 80) * 2 ≤ 2147483647 → (x == inject_Z n)%Q →
  Num.mul (Num.add (Some x) (Some 80%Q)) (Some 2%Q) = Some (inject_Z ((n + 80) * 2)).
Proof.
  intros Hn Hmax Hx.
  assert (2147483647 < 2 ^ 53) as Hbig by done.
  change 80%Q with (inject_Z 80). change 2%Q with (inject_Z 2).
  rewrite (add_whole x n 80 Hx) by lia.
  apply (mul_whole (n + 80) 2). lia.
Qed.

(** C3.  An export that gets as far as its image has allocated a surface
    whose width is what [(W + 80) * 2] comes to in binary64 arithmetic (the
    sum rounded, then doubled), cut down to a whole number of pixels, as
    long as that is a size a canvas takes; and the same for the height.  For
    a whole W or H nothing is rounded or cut: the width is [(W+80)*2], the
    height [(H+80)*2]. *)
Theorem surface_dimensions (P : Platform) (fn : option jsstring) (env : ExportEnv)
    (w : World) (im : PendingImage) :
  images (step P (Export fn env) w) = images w ++ [im] →
  (∀ x : Q, Num.mul (Num.add (Some (svgWidth env)) (Some 80%Q)) (Some 2%Q) = Some x →
            (0 <= x)%Q → (x <= 2147483647)%Q → cv_width (img_canvas im) = Qfloor x) ∧
  (∀ y : Q, Num.mul (Num.add (Some (svgHeight env)) (Some 80%Q)) (Some 2%Q) = Some y →
            (0 <= y)%Q → (y <= 2147483647)%Q → cv_height (img_canvas im) = Qfloor y) ∧
  (∀ n : Z, 0 ≤ n → (n + 80) * 2 ≤ 2147483647 → (svgWidth env == inject_Z n)%Q →
            cv_width (img_canvas im) = (n + 80) * 2) ∧
  (∀ m : Z, 0 ≤ m → (m + 80) * 2 ≤ 2147483647 → (svgHeight env == inject_Z m)%Q →
            cv_height (img_canvas im) = (m + 80) * 2).
Proof.
  cbn [step]. intros Him.
  destruct (downloadAsPNG_images P fn env w) as [Hsame|(im' & Happ & Hcv & _)].
  { rewrite Hsame in Him. apply (f_equal length) in Him.
    rewrite length_app in Him; simpl in Him. lia. }
  rewrite Happ in Him. apply app_inj_tail in Him as [_ ->].
  rewrite Hcv, export_canvas_width, export_canvas_height.
  assert (∀ d (v : Num.number) (k : Z), 0 ≤ k → k ≤ 2147483647 →
            v = Some (inject_Z k) → Num.reflect_unsigned_long d v = k) as Hwhole.
  { intros d v k Hk Hmax ->. rewrite reflect_unsigned_long_in_range.
    - apply Qfloor_Z.
    - change 0%Q with (inject_Z 0). by rewrite <- Zle_Qle.
    - change 2147483647%Q with (inject_Z 2147483647). by rewrite <- Zle_Qle. }
  split; [|split; [|split]].
  - intros x -> Hlo Hhi. by apply reflect_unsigned_long_in_range.
  - intros y -> Hlo Hhi. by apply reflect_unsigned_long_in_range.
  - intros n Hn Hmax Hx. apply Hwhole; [lia|done|by apply pad_scale_whole].
  - intros m Hm Hmax Hy. apply Hwhole; [lia|done|by apply pad_scale_whole].
Qed.

Lemma surface_dimensions_witness :
  let env := Fixture.env_int in
  ∃ im,
    images (step Fixture.platform (Export None env) Fixture.showing_diagram)
    = images Fixture.showing_diagram ++ [im] ∧
    cv_width (img_canvas im) = 400 ∧ cv_height (img_canvas im) = 280.
Proof.
  intros env. eexists.
  assert (∀ A B : Prop, A → (A → B) → A ∧ B) as both by tauto.
  apply both.
  - vm_compute; reflexivity.
  - intros Him.
    destruct (surface_dimensions Fixture.platform None env Fixture.showing_diagram _ Him)
      as (_ & _ & Hw & Hh).
    split; [apply (Hw 120)|apply (Hh 60)]; first [lia|reflexivity].
Defined.

(** C3, as stated, fails for a width that is not a whole number: the view
    box is 100.25 wide, [(100.25+80)*2] is 360.5, and the surface is 360
    pixels wide. *)
Lemma surface_width_is_whole :
  let env := {| viewBox := Some (401 # 4, 50)%Q; clientRect := (300, 150)%Q;
                context2d := true |} in
  ∃ im,
    images (step Fixture.platform (Export None env) Fixture.showing_diagram) = [im] ∧
    cv_width (img_canvas im) = 360 ∧
    ¬ (inject_Z (cv_width (img_canvas im)) == (svgWidth env + 80) * 2)%Q.
Proof.
  intros env. eexists. split; [vm_compute; reflexivity|]. split; [reflexivity|].
  vm_compute. discriminate.
Qed.

(** The sum is rounded before it is doubled: a view box [100 - 2^-46] wide
    gives [180] for [W + 80], which takes 54 bits, and a surface 360 pixels
    wide, though [(W+80)*2] is below 360. *)
Lemma surface_width_rounds_the_sum :
  let W := (100 - (1 # 2 ^ 46))%Q in
  let env := {| viewBox := Some (W, 50%Q); clientRect := (300, 150)%Q; context2d := true |} in
  ∃ im,
    images (step Fixture.platform (Export None env) Fixture.showing_diagram) = [im] ∧
    Num.add (Some W) (Some 80%Q) = Some 180%Q ∧
    cv_width (img_canvas im) = 360 ∧
    Qfloor ((W + 80) * 2) = 359.
Proof.
  intros W env. eexists. split; [vm_compute; reflexivity|].
  split; [vm_compute; reflexivity|]. split; vm_compute; reflexivity.
Qed.

(** *** The name of the fallback file *)

(** Both fallbacks save the serialized duplicate under [fallback_filename]
    of the name the export was called with. *)
Lemma fallback_download (P : Platform) (w : World) (k : nat) (im : PendingImage) (e : Event) :
  images w !! k = Some im →
  (e = ImageError k ∨ ∃ err, e = ImageLoad k (DrawImageThrows err) ∨
                             e = ImageLoad k (ToBlobThrows err)) →
  downloads (step P e w) =
  downloads w ++ [ {| dl_filename := fallback_filename (img_filename im);
                      dl_blob := SvgBlob (img_svgData im) |} ].
Proof.
  intros Hk [->|[err [->| ->]]]; simpl.
  - unfold img_onerror. by rewrite Hk.
  - unfold img_onload. by rewrite Hk.
  - unfold img_onload. by rewrite Hk.
Qed.

(** C9, at a name in which [.png] occurs before the extension: the export
    is called with [chart.png.png], the image fails to decode, and the file
    is saved as [chart.svg.png]: the first [.png] is exchanged, the
    extension is still [.png], and the base [chart.png] is not kept. *)
Theorem fallback_exchanges_first_png :
  let w := run Fixture.platform
             [Export (Some (Js.lit "chart.png.png")) Fixture.env_int; ImageError 0]
             Fixture.showing_diagram in
  dl_filename <$> downloads w = [Js.lit "chart.svg.png"] ∧
  dl_filename <$> downloads w ≠ [Js.lit "chart.png" ++ Js.lit ".svg"].
Proof. split; [vm_compute; reflexivity|vm_compute; discriminate]. Qed.

(** *** One export, one file *)

(** An export that finds an [svg] element, gets a context and can encode
    the markup starts one image and does nothing else that shows. *)
Lemma downloadAsPNG_started (P : Platform) (fn : option jsstring) (env : ExportEnv)
    (w : World) (p : list nat) (svg : Node) (bytes : list N) :
  mounted w ≫= Dom.querySelector "svg" = Some (p, svg) →
  context2d env = true →
  Encoding.utf8_encode (export_markup P env svg) = Some bytes →
  let w1 := downloadAsPNG P fn env w in
  images w1 = images w ++
    [ {| img_src := Js.lit "data:image/svg+xml;base64," ++ Encoding.btoa bytes;
         img_canvas := export_canvas env;
         img_svgWidth := svgWidth env; img_svgHeight := svgHeight env;
         img_svgData := export_markup P env svg;
         img_filename := requested fn |} ] ∧
  encodings w1 = encodings w ∧ downloads w1 = downloads w ∧
  console w1 = console w ∧ uncaught w1 = uncaught w.
Proof.
  intros Hsvg Hctx Henc. unfold mounted in Hsvg. unfold downloadAsPNG.
  destruct (mermaidRef w) as [l|]; [|done]. simpl in Hsvg. rewrite Hsvg.
  pose proof (clone_with_size_deref P env svg w) as Hclone.
  destruct (clone_with_size_frame P env svg w) as [Hsame _].
  destruct (clone_with_size P env svg w) as [r w1]; simpl in *.
  destruct Hsame as (_ & _ & _ & _ & Him & Hen & Hdl & Hco & Hun).
  rewrite Hctx. unfold load_image. rewrite Hclone.
  fold (export_markup P env svg). rewrite Henc. simpl.
  by rewrite Him.
Qed.

Lemma completion_downloads (P : Platform) (w : World) (im : PendingImage) (f : Fate) (w1 : World) :
  images w1 = images w ++ [im] →
  encodings w1 = encodings w →
  let w' := run P (completion (length (images w)) (length (encodings w)) f) w1 in
  downloads w' = downloads w1 ++ [produced (img_filename im) (img_svgData im) f] ∧
  images w' = images w ∧ encodings w' = encodings w.
Proof.
  intros Him Hen.
  assert (images w1 !! length (images w) = Some im) as Hk
    by (rewrite Him; apply list_lookup_middle; done).
  assert (delete (length (images w)) (images w1) = images w) as Hdel
    by (rewrite Him, delete_middle; apply app_nil_r).
  destruct f; simpl; unfold img_onerror, img_onload; rewrite Hk; simpl;
    rewrite ?Hdel; try done.
  unfold toBlob_callback; simpl. rewrite Hen.
  rewrite list_lookup_middle by done. simpl.
  by rewrite delete_middle, app_nil_r.
Qed.

(** C2.  An export called with an [svg] element in the page, a 2D context
    at hand and markup that encodes, followed by the decode failure, the
    throwing draw, the throwing encoder or the blob, has added exactly one
    file to the downloads: the vector file under the fallback name in the
    first three cases, the raster file under the requested name in the last.
    No image and no encoding of this export is pending any more, so no second
    file can follow. *)
Theorem export_produces_one_file (P : Platform) (fn : option jsstring) (env : ExportEnv)
    (w : World) (p : list nat) (svg : Node) (f : Fate) :
  mounted w ≫= Dom.querySelector "svg" = Some (p, svg) →
  context2d env = true →
  is_Some (Encoding.utf8_encode (export_markup P env svg)) →
  let w' := run P (Export fn env :: completion (length (images w)) (length (encodings w)) f) w in
  downloads w' = downloads w ++ [produced (requested fn) (export_markup P env svg) f] ∧
  images w' = images w ∧ encodings w' = encodings w.
Proof.
  intros Hsvg Hctx [bytes Henc] w'. subst w'.
  destruct (downloadAsPNG_started P fn env w p svg bytes Hsvg Hctx Henc)
    as (Him & Hen & Hdl & _).
  change (run P (Export fn env :: ?es) w) with (run P es (downloadAsPNG P fn env w)).
  destruct (completion_downloads P w _ f _ Him Hen) as (Hd & Hi & He).
  rewrite Hd, Hdl. done.
Qed.

Lemma export_produces_one_file_witness :
  let w := Fixture.showing_diagram in
  let env := Fixture.env_int in
  let w' := run Fixture.platform
              [Export None env; ImageLoad 0 ToBlobQueued; BlobReady 0 (Some [137; 80; 78; 71]%N)]
              w in
  (mounted w ≫= Dom.querySelector "svg" = Some ([0%nat], Fixture.shown_svg) ∧
   context2d env = true ∧
   is_Some (Encoding.utf8_encode (export_markup Fixture.platform env Fixture.shown_svg))) ∧
  downloads w' = [ {| dl_filename := Js.lit "mermaid-diagram.png";
                      dl_blob := PngBlob [137; 80; 78; 71]%N |} ].
Proof.
  intros w env w'.
  assert (∀ A B : Prop, A → (A → B) → A ∧ B) as both by tauto.
  apply both.
  - split; [vm_compute; reflexivity|]. split; [reflexivity|].
    vm_compute. eexists. reflexivity.
  - intros (Hsvg & Hctx & Henc).
    exact (proj1 (export_produces_one_file Fixture.platform None env w
                    [0%nat] Fixture.shown_svg (Encoded [137; 80; 78; 71]%N)
                    Hsvg Hctx Henc)).
Defined.

(** X15.  The encoder calls back with [null]: the export ends without a
    file, and nothing of it is pending any more. *)
Lemma null_blob_no_file (P : Platform) (fn : option jsstring) (env : ExportEnv)
    (w : World) (p : list nat) (svg : Node) :
  mounted w ≫= Dom.querySelector "svg" = Some (p, svg) →
  context2d env = true →
  is_Some (Encoding.utf8_encode (export_markup P env svg)) →
  let w' := run P [Export fn env; ImageLoad (length (images w)) ToBlobQueued;
                   BlobReady (length (encodings w)) None] w in
  downloads w' = downloads w ∧ images w' = images w ∧ encodings w' = encodings w.
Proof.
  intros Hsvg Hctx [bytes Henc] w'. subst w'.
  destruct (downloadAsPNG_started P fn env w p svg bytes Hsvg Hctx Henc)
    as (Him & Hen & Hdl & _).
  simpl. unfold img_onload. rewrite Him, list_lookup_middle by done. simpl.
  unfold toBlob_callback. simpl. rewrite Hen, list_lookup_middle by done. simpl.
  by rewrite !delete_middle, !app_nil_r.
Qed.

(** With nothing pending, the callbacks of the exporter do nothing. *)
Lemma callbacks_idle (P : Platform) (e : Event) (w : World) :
  images w = [] → encodings w = [] →
  match e with ImageLoad _ _ | ImageError _ | BlobReady _ _ => step P e w = w | _ => True end.
Proof.
  intros Him Hen. destruct e; try done; simpl;
    unfold img_onload, img_onerror, toBlob_callback; by rewrite ?Him, ?Hen.
Qed.

(** C2, as stated, fails when no 2D context is to be had: an [svg] element
    is in the page, the export is called, and no file is produced then or
    later, since the call leaves nothing pending. *)
Lemma export_without_context_no_file :
  let env := {| viewBox := Some (120, 60)%Q; clientRect := (300, 150)%Q; context2d := false |} in
  let w := Fixture.showing_diagram in
  let w' := step Fixture.platform (Export None env) w in
  (∃ p svg, mounted w ≫= Dom.querySelector "svg" = Some (p, svg)) ∧
  downloads w' = [] ∧ images w' = [] ∧ encodings w' = [].
Proof.
  intros env w w'. split; [eexists _, _; vm_compute; reflexivity|].
  by vm_compute.
Qed.

(** *** The idle state *)

(** C4.  A render with an empty or all-blank description leaves no element
    behind the ref, the page shows nothing, no attempt is added to the
    suspended ones, and nothing is logged or thrown. *)
Theorem blank_description_is_idle (P : Platform) (w : World) (c : jsstring) (now : Z) :
  Forall (λ u, Js.is_white_space u = true) c →
  let w' := step P (Render c now) w in
  shows_div c = false ∧ mermaidRef w' = None ∧ mounted w' = None ∧
  attempts w' = attempts w ∧
  console w' = console w ∧ uncaught w' = uncaught w ∧ downloads w' = downloads w.
Proof.
  intros Hc w'. subst w'. pose proof (shows_div_blank c Hc) as Hdiv.
  split; [done|]. simpl. unfold render, commit, effect, renderChart_start. rewrite Hdiv.
  by destruct (bool_decide (chart w = Some c)).
Qed.

Lemma blank_description_is_idle_witness :
  let c := [0x20; 0x9; 0xA; 0x3000]%N in
  let w' := step Fixture.platform (Render c 2000) Fixture.showing_diagram in
  Forall (λ u, Js.is_white_space u = true) c ∧
  shows_div c = false ∧ mermaidRef w' = None ∧ mounted w' = None ∧
  attempts w' = attempts Fixture.showing_diagram ∧
  console w' = console Fixture.showing_diagram ∧
  uncaught w' = uncaught Fixture.showing_diagram ∧
  downloads w' = downloads Fixture.showing_diagram.
Proof.
  intros c w'. split.
  - repeat constructor.
  - apply (blank_description_is_idle Fixture.platform Fixture.showing_diagram c 2000).
    repeat constructor.
Defined.

(** *** Settled attempts *)

Lemma renderChart_catch_attached (P : Platform) (error : Thrown) (w : World) (l : nat) :
  mermaidRef w = Some l →
  renderChart_catch P error w =
  set_innerHTML P l (error_panel (Thrown_toString error))
    (W.log (console_error "Mermaid rendering error:" (Some error)) w).
Proof.
  intros Hl. unfold renderChart_catch.
  change (mermaidRef (W.log ?e w)) with (mermaidRef w). by rewrite Hl.
Qed.

Lemma renderChart_resume_mounted (P : Platform) (o : Settled) (w : World)
    (t : string) (a s : list (string * jsstring)) (kids : list Node) :
  mounted w = Some (Elem t a s kids) →
  let w' := renderChart_resume P o w in
  mounted w' = Some (Elem t a s (shown P o)) ∧
  mermaidRef w' = mermaidRef w ∧ chart w' = chart w ∧ attempts w' = attempts w ∧
  uncaught w' = uncaught w ∧ downloads w' = downloads w.
Proof.
  destruct (mermaidRef w) as [l|] eqn:Hl; [|by unfold mounted; rewrite Hl].
  rewrite (mounted_at w l Hl). intros Hdiv.
  destruct o as [svg|error].
  - cbn [renderChart_resume shown]. rewrite Hl.
    pose proof (set_innerHTML_mounted P w l svg t a s kids Hdiv) as Hset.
    rewrite Hset. cbn [mbind option_bind Dom.querySelector].
    destruct (Dom.scan (Dom.find_element "svg") 0 (parseHTML P svg)) as [[p m]|] eqn:Hscan.
    + destruct (scan_path _ _ _ _ _ Hscan) as (j & q & Hp).
      split; [|done]. rewrite (mounted_at _ l) by done.
      rewrite !update_lookup, Hset. cbn [fmap option_fmap option_map].
      f_equal. by apply (restyle_children p t a s _ j q).
    + split; [|done]. by rewrite (mounted_at _ l).
  - cbn [renderChart_resume shown]. rewrite (renderChart_catch_attached P error w l Hl).
    split; [|done]. rewrite (mounted_at _ l) by done.
    apply (set_innerHTML_mounted P (W.log _ w) l _ t a s kids Hdiv).
Qed.

Lemma settle_mounted (P : Platform) (k : nat) (o : Settled) (w : World) (att : Attempt)
    (t : string) (a s : list (string * jsstring)) (kids : list Node) :
  attempts w !! k = Some att →
  mounted w = Some (Elem t a s kids) →
  let w' := settle P k o w in
  mounted w' = Some (Elem t a s (shown P o)) ∧
  mermaidRef w' = mermaidRef w ∧ chart w' = chart w ∧
  attempts w' = delete k (attempts w) ∧
  uncaught w' = uncaught w ∧ downloads w' = downloads w.
Proof.
  intros Hk Hm. unfold settle. rewrite Hk.
  apply (renderChart_resume_mounted P o (W.set_attempts (delete k (attempts w)) w) t a s kids Hm).
Qed.

Lemma delete_second_of_two {A} (l : list A) (x y : A) :
  delete (S (length l)) (l ++ [x; y]) = l ++ [x].
Proof. induction l as [|z l IH]; simpl; [done|]. by rewrite IH. Qed.

(** A render with a new description that is not blank: the [div] is (or
    stays) in the page, emptied, and one more attempt is suspended, tagged
    with the clock reading. *)
Lemma render_starts (P : Platform) (c : jsstring) (now : Z) (w : World) :
  attached w → shows_div c = true → chart w ≠ Some c →
  let w' := render P c now w in
  (∃ t a s, mounted w' = Some (Elem t a s (parseHTML P []))) ∧
  chart w' = Some c ∧
  attempts w' =
    attempts w ++ [ {| att_id := Js.lit "mermaid-" ++ Js.of_Z now; att_chart := c |} ].
Proof.
  intros Hatt Hdiv Hnew. unfold render. rewrite bool_decide_eq_false_2 by done.
  unfold commit. rewrite Hdiv. unfold effect, renderChart_start.
  destruct (mermaidRef w) as [l|] eqn:Hl.
  - destruct (Hatt l Hl) as (t & a & s & kids & Hheap).
    cbn [mermaidRef W.set_chart W.set_mermaidConfig]. rewrite Hl.
    unfold shows_div in Hdiv. rewrite Hdiv.
    split; [|done]. exists t, a, s. rewrite (mounted_at _ l) by done.
    apply (set_innerHTML_mounted P _ l [] t a s kids). exact Hheap.
  - cbn [W.alloc mermaidRef W.set_chart W.set_mermaidConfig W.set_mermaidRef W.set_heap].
    unfold shows_div in Hdiv. rewrite Hdiv.
    split; [|done]. eexists _, _, _. rewrite (mounted_at _ (fresh (dom (heap w)))) by done.
    apply (set_innerHTML_mounted P _ _ [] _ _ _ []). simpl. apply lookup_insert_eq.
Qed.

(** C1.  Description D1, then D2, on a page the ref of which is sound:
    both attempts are suspended, D2 is the current description.  Whichever
    of the two settles first, its outcome is put into the page at once, with
    the other attempt still suspended, and the outcome of the other one
    replaces it when that settles.  So when D2's attempt settles first, the
    page ends with D1's outcome although the current description is D2; when
    D1's attempt settles first, the page shows D1's outcome until D2's
    arrives.  No outcome is held back or dropped. *)
Theorem last_settled_attempt_is_shown (P : Platform) (w : World) (D1 D2 : jsstring)
    (t1 t2 : Z) (o1 o2 : Settled) :
  attached w → chart w ≠ Some D1 → D1 ≠ D2 →
  shows_div D1 = true → shows_div D2 = true →
  let n := length (attempts w) in
  let w0 := run P [Render D1 t1; Render D2 t2] w in
  (att_chart <$> attempts w0 !! n = Some D1 ∧
   att_chart <$> attempts w0 !! S n = Some D2 ∧
   chart w0 = Some D2) ∧
  (let w2 := step P (Settle (S n) o2) w0 in
   let w1 := step P (Settle n o1) w2 in
   Dom.children <$> mounted w2 = Some (shown P o2) ∧
   att_chart <$> attempts w2 !! n = Some D1 ∧
   Dom.children <$> mounted w1 = Some (shown P o1) ∧
   chart w1 = Some D2 ∧ attempts w1 = attempts w) ∧
  (let w1 := step P (Settle n o1) w0 in
   let w2 := step P (Settle n o2) w1 in
   Dom.children <$> mounted w1 = Some (shown P o1) ∧
   att_chart <$> attempts w1 !! n = Some D2 ∧
   chart w1 = Some D2 ∧
   Dom.children <$> mounted w2 = Some (shown P o2) ∧
   chart w2 = Some D2 ∧ attempts w2 = attempts w).
Proof.
  intros Hatt Hnew Hne Hd1 Hd2 n w0. subst w0.
  change (run P [Render D1 t1; Render D2 t2] w) with (render P D2 t2 (render P D1 t1 w)).
  cbn [step].
  destruct (render_starts P D1 t1 w Hatt Hd1 Hnew) as ((t & a & s & Hm1) & Hc1 & Ha1).
  set (wa := render P D1 t1 w) in *.
  assert (attached wa) as Hatta.
  { intros l Hl. rewrite (mounted_at wa l Hl) in Hm1. by eexists _, _, _, _. }
  assert (chart wa ≠ Some D2) as Hnew2 by (rewrite Hc1; congruence).
  destruct (render_starts P D2 t2 wa Hatta Hd2 Hnew2) as ((t' & a' & s' & Hm2) & Hc2 & Ha2).
  set (wb := render P D2 t2 wa) in *.
  rewrite Ha1 in Ha2. rewrite <- app_assoc in Ha2. simpl in Ha2.
  set (att1 := {| att_id := Js.lit "mermaid-" ++ Js.of_Z t1; att_chart := D1 |}) in *.
  set (att2 := {| att_id := Js.lit "mermaid-" ++ Js.of_Z t2; att_chart := D2 |}) in *.
  assert (attempts wb !! n = Some att1) as Hk1
    by (rewrite Ha2; by apply list_lookup_middle).
  assert (attempts wb !! S n = Some att2) as Hk2.
  { rewrite Ha2. subst n. rewrite lookup_app_r by lia.
    by replace (S (length (attempts w)) - length (attempts w))%nat with 1%nat by lia. }
  split; [by rewrite Hk1, Hk2|]. split.
  - destruct (settle_mounted P (S n) o2 wb _ _ _ _ _ Hk2 Hm2) as (Hm3 & _ & Hc3 & Ha3 & _).
    set (wc := settle P (S n) o2 wb) in *.
    assert (attempts wc = attempts w ++ [att1]) as Ha3'
      by (rewrite Ha3, Ha2; subst n; apply delete_second_of_two).
    assert (attempts wc !! n = Some att1) as Hk1'
      by (rewrite Ha3'; by apply list_lookup_middle).
    destruct (settle_mounted P n o1 wc _ _ _ _ _ Hk1' Hm3) as (Hm4 & _ & Hc4 & Ha4 & _).
    rewrite Hm3, Hm4, Hk1', Hc4, Hc3, Hc2, Ha4, Ha3'.
    repeat split; try done. subst n. by rewrite delete_middle, app_nil_r.
  - destruct (settle_mounted P n o1 wb _ _ _ _ _ Hk1 Hm2) as (Hm3 & _ & Hc3 & Ha3 & _).
    set (wc := settle P n o1 wb) in *.
    assert (attempts wc = attempts w ++ [att2]) as Ha3'
      by (rewrite Ha3, Ha2; subst n; by rewrite delete_middle).
    assert (attempts wc !! n = Some att2) as Hk2'
      by (rewrite Ha3'; by apply list_lookup_middle).
    destruct (settle_mounted P n o2 wc _ _ _ _ _ Hk2' Hm3) as (Hm4 & _ & Hc4 & Ha4 & _).
    rewrite Hm3, Hm4, Hk2', Hc4, Hc3, Hc2, Ha4, Ha3'.
    repeat split; try done. subst n. by rewrite delete_middle, app_nil_r.
Qed.

Lemma last_settled_attempt_is_shown_witness :
  let D1 := Js.lit "graph TD; A-->B" in
  let D2 := Js.lit "graph TD; A-->C" in
  let o1 := Rejected (EngineError (Js.lit "Parse error on line 1")) in
  let o2 := Fulfilled (Js.lit "<svg>A-C</svg>") in
  let w0 := run Fixture.platform [Render D1 1000; Render D2 1001] init in
  let late := run Fixture.platform [Settle 1 o2; Settle 0 o1] w0 in
  let early := step Fixture.platform (Settle 0 o1) w0 in
  (attached init ∧ chart init ≠ Some D1 ∧ D1 ≠ D2 ∧ shows_div D1 = true ∧ shows_div D2 = true) ∧
  (Dom.children <$> mounted late = Some (shown Fixture.platform o1) ∧ chart late = Some D2) ∧
  (Dom.children <$> mounted early = Some (shown Fixture.platform o1) ∧
   att_chart <$> attempts early !! 0%nat = Some D2).
Proof.
  intros D1 D2 o1 o2 w0 late early.
  assert (attached init ∧ chart init ≠ Some D1 ∧ D1 ≠ D2 ∧
          shows_div D1 = true ∧ shows_div D2 = true) as H.
  { split; [intros l; discriminate|]. split; [discriminate|].
    split; [vm_compute; discriminate|]. split; reflexivity. }
  split; [exact H|].
  destruct H as (Hatt & Hnew & Hne & Hd1 & Hd2).
  destruct (last_settled_attempt_is_shown Fixture.platform init D1 D2 1000 1001 o1 o2
              Hatt Hnew Hne Hd1 Hd2)
    as (_ & (_ & _ & Hlate & Hchart & _) & (Hearly & Hpending & _)).
  split; [split; [exact Hlate|exact Hchart]|split; [exact Hearly|exact Hpending]].
Defined.

(** C1, as stated, fails: D1's attempt is fulfilled after D2's result is in
    the page, and the page ends up with D1's diagram, not D2's. *)
Lemma stale_result_overwrites_newer :
  let D1 := Js.lit "graph TD; A-->B" in
  let D2 := Js.lit "graph TD; A-->C" in
  let o1 := Fulfilled (Js.lit "<svg>A-B</svg>") in
  let o2 := Fulfilled (Js.lit "<svg>A-C</svg>") in
  let w2 := run Fixture.platform [Render D1 1000; Render D2 1001; Settle 1 o2] init in
  let w1 := step Fixture.platform (Settle 0 o1) w2 in
  Dom.children <$> mounted w2 = Some (shown Fixture.platform o2) ∧
  chart w1 = Some D2 ∧
  Dom.children <$> mounted w1 = Some (shown Fixture.platform o1) ∧
  Dom.children <$> mounted w1 ≠ Some (shown Fixture.platform o2).
Proof.
  intros D1 D2 o1 o2 w2 w1.
  split; [vm_compute; reflexivity|]. split; [vm_compute; reflexivity|].
  split; [vm_compute; reflexivity|]. vm_compute. discriminate.
Qed.

(** *** Attempt identifiers *)

(** Whatever the platform and the state, two new descriptions rendered at
    one clock reading start two attempts with one identifier. *)
Lemma attempts_of_one_instant (P : Platform) (w : World) (D1 D2 : jsstring) (now : Z) :
  attached w → chart w ≠ Some D1 → D1 ≠ D2 →
  shows_div D1 = true → shows_div D2 = true →
  attempts (run P [Render D1 now; Render D2 now] w) =
  attempts w ++ [ {| att_id := Js.lit "mermaid-" ++ Js.of_Z now; att_chart := D1 |};
                  {| att_id := Js.lit "mermaid-" ++ Js.of_Z now; att_chart := D2 |} ].
Proof.
  intros Hatt Hnew Hne Hd1 Hd2. simpl.
  destruct (render_starts P D1 now w Hatt Hd1 Hnew) as ((t & a & s & Hm1) & Hc1 & Ha1).
  set (wa := render P D1 now w) in *.
  assert (attached wa) as Hatta.
  { intros l Hl. rewrite (mounted_at wa l Hl) in Hm1. by eexists _, _, _, _. }
  assert (chart wa ≠ Some D2) as Hnew2 by (rewrite Hc1; congruence).
  destruct (render_starts P D2 now wa Hatta Hd2 Hnew2) as (_ & _ & Ha2).
  rewrite Ha2, Ha1, <- app_assoc. done.
Qed.

(** C7, at two descriptions rendered within one millisecond: both attempts
    are suspended, for different descriptions, under one identifier. *)
Theorem same_instant_same_identifier :
  let D1 := Js.lit "graph TD; A-->B" in
  let D2 := Js.lit "graph TD; A-->C" in
  let w := run Fixture.platform [Render D1 1000; Render D2 1000] init in
  att_chart <$> attempts w = [D1; D2] ∧
  att_id <$> attempts w = [Js.lit "mermaid-1000"; Js.lit "mermaid-1000"].
Proof. split; vm_compute; reflexivity. Qed.

(** *** Compilation failures *)




(** The detail is not escaped: an error text that holds markup is markup
    in the panel.  Here the text closes the [pre] and the [details] element
    itself, so what follows it is outside the disclosure control in any
    parser's reading. *)
Lemma error_text_is_markup :
  let detail := Js.lit "Parse error</pre></details><b>on line 1</b>" in
  let panel := error_panel (Thrown_toString (EngineError detail)) in
  panel = error_panel_before ++ detail ++ error_panel_after ∧
  Js.starts_with (error_panel_before ++ Js.lit "Parse error</pre></details>") panel = true.
Proof. split; vm_compute; reflexivity. Qed.


(** ** Further properties *)

(** *** The bytes behind the data URL *)

Lemma below_16 (Q : N → Prop) :
  Forall (λ k, Q (N.of_nat k)) (seq 0 16) → ∀ n, (n < 16)%N → Q n.
Proof.
  intros H n Hn. rewrite Forall_forall in H.
  rewrite <- (N2Nat.id n). apply H, elem_of_seq. lia.
Qed.

Ltac each_below_16 :=
  let n := fresh in
  intros n; revert n; apply below_16; cbn [seq];
  repeat (apply Forall_cons_2; [vm_compute; first [reflexivity | discriminate]|]);
  apply Forall_nil_2.

Lemma hex_upper_value (n : N) : (n < 16)%N → Uri.hex_value (Uri.hex_upper n) = Some n.
Proof. revert n. each_below_16. Qed.

Lemma hex_upper_not_u (n : N) : (n < 16)%N → Uri.hex_upper n ≠ 0x75%N.
Proof. revert n. each_below_16. Qed.

Lemma escape4_not_u (a : N) (l : jsstring) : a ≠ 0x75%N → Uri.escape4 (a :: l) = None.
Proof.
  intros Ha. apply N.eqb_neq in Ha.
  destruct l as [|b [|c [|d [|e l]]]]; simpl; by rewrite ?Ha.
Qed.

Lemma escape_rest_shorter (s : jsstring) (v : N) (rest : jsstring) :
  Uri.escape4 s = Some (v, rest) ∨ Uri.escape2 s = Some (v, rest) →
  (length rest < length s)%nat.
Proof.
  intros [H|H].
  - destruct s as [|u [|a [|b [|c [|d s]]]]]; simpl in H; try done.
    repeat case_match; simplify_option_eq; simpl; lia.
  - destruct s as [|a [|b s]]; simpl in H; try done.
    repeat case_match; simplify_option_eq; simpl; lia.
Qed.

(** Any fuel that covers the length gives the same result. *)
Lemma unescape_fuel_enough (f1 f2 : nat) (s : jsstring) :
  (length s ≤ f1)%nat → (length s ≤ f2)%nat →
  Uri.unescape_fuel f1 s = Uri.unescape_fuel f2 s.
Proof.
  revert f2 s. induction f1 as [|f1 IH]; intros f2 s H1 H2.
  - destruct s; [|simpl in H1; lia]. by destruct f2.
  - destruct f2 as [|f2]; [destruct s; [done|simpl in H2; lia]|].
    destruct s as [|c s]; [done|]. simpl in H1, H2. cbn [Uri.unescape_fuel].
    destruct (c =? 0x25)%N; [|f_equal; apply IH; lia].
    destruct (Uri.escape4 s) as [[v rest]|] eqn:H4.
    { pose proof (escape_rest_shorter s v rest (or_introl H4)). f_equal. apply IH; lia. }
    destruct (Uri.escape2 s) as [[v rest]|] eqn:H2'.
    { pose proof (escape_rest_shorter s v rest (or_intror H2')). f_equal. apply IH; lia. }
    f_equal. apply IH; lia.
Qed.

Lemma unescape_fuel_S (f : nat) (c : N) (s : jsstring) :
  Uri.unescape_fuel (S f) (c :: s) =
  if (c =? 0x25)%N then
    match Uri.escape4 s with
    | Some (v, rest) => v :: Uri.unescape_fuel f rest
    | None =>
        match Uri.escape2 s with
        | Some (v, rest) => v :: Uri.unescape_fuel f rest
        | None => c :: Uri.unescape_fuel f s
        end
    end
  else c :: Uri.unescape_fuel f s.
Proof. reflexivity. Qed.

Lemma unescape_plain (c : N) (s : jsstring) :
  c ≠ 0x25%N → Uri.unescape (c :: s) = c :: Uri.unescape s.
Proof.
  intros Hc. apply N.eqb_neq in Hc. unfold Uri.unescape.
  cbn [length]. by rewrite unescape_fuel_S, Hc.
Qed.

Lemma unescape_percent (b : N) (s : jsstring) :
  (b < 256)%N → Uri.unescape (Uri.percent b ++ s) = b :: Uri.unescape s.
Proof.
  intros Hb. unfold Uri.unescape, Uri.percent.
  assert (b / 16 < 16)%N as Hhi by (apply N.Div0.div_lt_upper_bound; lia).
  assert (b mod 16 < 16)%N as Hlo by (apply N.mod_lt; lia).
  cbn [app length]. rewrite unescape_fuel_S, N.eqb_refl.
  rewrite escape4_not_u by by apply hex_upper_not_u.
  cbn [Uri.escape2]. rewrite !hex_upper_value by done. cbn [mbind option_bind].
  f_equal; [|apply unescape_fuel_enough; lia].
  pose proof (N.div_mod b 16 ltac:(done)) as Hdm.
  set (q := (b / 16)%N) in *. set (r := (b mod 16)%N) in *. lia.
Qed.

Lemma unescape_percents (bs : list N) (s : jsstring) :
  Forall (λ b, b < 256)%N bs →
  Uri.unescape (mjoin (Uri.percent <$> bs) ++ s) = bs ++ Uri.unescape s.
Proof.
  induction 1 as [|b bs Hb _ IH]; [done|].
  cbn [fmap list_fmap mjoin list_join]. rewrite <- app_assoc, unescape_percent by done.
  rewrite <- app_comm_cons. f_equal. exact IH.
Qed.

(** Linear arithmetic with division and remainder by constants. *)
Ltac lia_div := zify; Z.to_euclidean_division_equations; lia.

(** UTF-8 gives octets. *)
Lemma utf8_octets (cp : N) :
  (cp < 0x110000)%N → Forall (λ b, b < 256)%N (Encoding.utf8_of_code_point cp).
Proof.
  intros Hcp. unfold Encoding.utf8_of_code_point.
  repeat (match goal with |- context [(?x <? ?y)%N] => destruct (N.ltb_spec x y) end);
    repeat constructor; lia_div.
Qed.

Lemma list_ind_two {A} (Q : list A → Prop) :
  Q [] → (∀ c, Q [c]) → (∀ c d s, Q s → Q (d :: s) → Q (c :: d :: s)) → ∀ s, Q s.
Proof.
  intros H0 H1 H2 s. cut (Q s ∧ ∀ c, Q (c :: s)); [tauto|].
  induction s as [|d s [IHs IHd]]; [done|]. split; [apply IHd|]. intros c. by apply H2.
Qed.

Lemma unreserved_ascii (c : N) :
  Uri.unreserved c = true → (c < 0x80)%N ∧ c ≠ 0x25%N.
Proof.
  intros H. split; [|by intros ->].
  unfold Uri.unreserved in H.
  repeat (apply orb_prop in H as [H|H]);
    try (apply andb_prop in H as [H1%N.leb_le H2%N.leb_le]; lia).
  apply bool_decide_eq_true in H. repeat (apply elem_of_cons in H as [->|H]; [lia|]).
  by apply elem_of_nil in H.
Qed.

Lemma surrogate_range (c : N) :
  (Encoding.is_high_surrogate c = true → (0xD800 ≤ c ∧ c ≤ 0xDBFF)%N) ∧
  (Encoding.is_low_surrogate c = true → (0xDC00 ≤ c ∧ c ≤ 0xDFFF)%N).
Proof.
  unfold Encoding.is_high_surrogate, Encoding.is_low_surrogate.
  split; intros [H1%N.leb_le H2%N.leb_le]%andb_prop; lia.
Qed.

Lemma utf8_ascii (c : N) (s : jsstring) :
  (c < 0x80)%N → Encoding.utf8_encode (c :: s) = (c ::.) <$> Encoding.utf8_encode s.
Proof.
  intros Hc. cbn [Encoding.utf8_encode].
  destruct (Encoding.is_high_surrogate c) eqn:Hh;
    [apply surrogate_range in Hh; lia|].
  destruct (Encoding.is_low_surrogate c) eqn:Hl;
    [apply surrogate_range in Hl; lia|].
  unfold Encoding.utf8_of_code_point. destruct (N.ltb_spec c 0x80); [|lia].
  by destruct (Encoding.utf8_encode s).
Qed.

(** One step of [encodeURIComponent] followed by [unescape] is one step of
    [utf8_encode]. *)
Lemma unescape_percent_encode (cp : N) (e : jsstring) :
  (cp < 0x110000)%N →
  Uri.unescape (Uri.percent_encode cp ++ e) = Encoding.utf8_of_code_point cp ++ Uri.unescape e.
Proof. intros Hcp. apply unescape_percents. by apply utf8_octets. Qed.

Lemma surrogate_reserved (c : N) :
  Encoding.is_high_surrogate c = true ∨ Encoding.is_low_surrogate c = true →
  Uri.unreserved c = false.
Proof.
  intros H. destruct (Uri.unreserved c) eqn:Hu; [|done].
  apply unreserved_ascii in Hu as [Hlt _].
  destruct H as [H|H]; apply surrogate_range in H; lia.
Qed.

Lemma unescape_encode_step (c : N) (s : jsstring) :
  (c < 0x10000)%N →
  Encoding.is_high_surrogate c = false →
  Uri.unescape <$> Uri.encodeURIComponent s = Encoding.utf8_encode s →
  Uri.unescape <$> Uri.encodeURIComponent (c :: s) = Encoding.utf8_encode (c :: s).
Proof.
  intros Hc Hh IH. destruct (Uri.unreserved c) eqn:Hu.
  - destruct (unreserved_ascii c Hu) as [Hlt Hne].
    rewrite utf8_ascii by done. cbn [Uri.encodeURIComponent]. rewrite Hu, <- IH.
    destruct (Uri.encodeURIComponent s); [|done].
    cbn [fmap option_fmap option_map]. by rewrite unescape_plain.
  - cbn [Uri.encodeURIComponent Encoding.utf8_encode]. rewrite Hu, Hh.
    destruct (Encoding.is_low_surrogate c); [done|]. rewrite <- IH.
    destruct (Uri.encodeURIComponent s); [|done].
    cbn [fmap option_fmap option_map]. f_equal. apply unescape_percent_encode. lia.
Qed.

Lemma unescape_encodeURIComponent (s : jsstring) :
  Forall (λ c, c < 0x10000)%N s →
  Uri.unescape <$> Uri.encodeURIComponent s = Encoding.utf8_encode s.
Proof.
  induction s as [|c|c d s IHs IHd] using list_ind_two; intros Hs.
  - done.
  - apply Forall_cons in Hs as [Hc _].
    destruct (Encoding.is_high_surrogate c) eqn:Hh; [|by apply unescape_encode_step].
    cbn [Uri.encodeURIComponent Encoding.utf8_encode].
    by rewrite surrogate_reserved, Hh by by left.
  - apply Forall_cons in Hs as [Hc Hds]. pose proof Hds as Hds'.
    apply Forall_cons in Hds' as [Hd Hs].
    destruct (Encoding.is_high_surrogate c) eqn:Hh; [|by apply unescape_encode_step; auto].
    cbn [Uri.encodeURIComponent Encoding.utf8_encode].
    rewrite surrogate_reserved, Hh by by left.
    destruct (Encoding.is_low_surrogate d) eqn:Hl; [|done].
    apply surrogate_range in Hh. apply surrogate_range in Hl.
    rewrite <- (IHs Hs). destruct (Uri.encodeURIComponent s); [|done].
    cbn [fmap option_fmap option_map]. f_equal. apply unescape_percent_encode. lia.
Qed.

Lemma utf8_encode_octets (s : jsstring) (bytes : list N) :
  Forall (λ c, c < 0x10000)%N s →
  Encoding.utf8_encode s = Some bytes → Forall (λ b, b < 256)%N bytes.
Proof.
  revert bytes. induction s as [|c|c d s IHs IHd] using list_ind_two; intros bytes Hs.
  - by intros [= <-].
  - apply Forall_cons in Hs as [Hc _]. cbn [Encoding.utf8_encode].
    repeat case_match; try done. intros [= <-]. rewrite app_nil_r. apply utf8_octets. lia.
  - apply Forall_cons in Hs as [Hc Hds]. pose proof Hds as Hds'.
    apply Forall_cons in Hds' as [Hd Hs].
    destruct (Encoding.is_high_surrogate c) eqn:Hh.
    + cbn [Encoding.utf8_encode]. rewrite Hh.
      destruct (Encoding.is_low_surrogate d) eqn:Hl; [|done].
      apply surrogate_range in Hh. apply surrogate_range in Hl.
      destruct (Encoding.utf8_encode s) as [bs|]; [|done]. intros [= <-].
      apply Forall_app. split; [apply utf8_octets; lia|by apply IHs].
    + change (Encoding.utf8_encode (c :: d :: s)) with
        (if Encoding.is_high_surrogate c then
           match d :: s with
           | d' :: s'' =>
               if Encoding.is_low_surrogate d' then
                 (Encoding.utf8_of_code_point
                    (0x10000 + (c - 0xD800) * 0x400 + (d' - 0xDC00))%N ++.)
                 <$> Encoding.utf8_encode s''
               else None
           | [] => None
           end
         else if Encoding.is_low_surrogate c then None
         else (Encoding.utf8_of_code_point c ++.) <$> Encoding.utf8_encode (d :: s)).
      rewrite Hh. destruct (Encoding.is_low_surrogate c); [done|].
      destruct (Encoding.utf8_encode (d :: s)) as [bs|]; [|done]. intros [= <-].
      apply Forall_app. split; [apply utf8_octets; lia|by apply IHd].
Qed.

(** X1.  Line 54 of MermaidRenderer.tsx: for every string of UTF-16 code
    units, [unescape(encodeURIComponent(s))] is the UTF-8 encoding of [s],
    one character per octet, and throws exactly when [s] holds a surrogate
    without its partner; every character of it is below 256, so that the
    [btoa] around it never meets a character it rejects. *)
Theorem data_url_payload_is_utf8 (s : jsstring) :
  Forall (λ c, c < 0x10000)%N s →
  Uri.unescape <$> Uri.encodeURIComponent s = Encoding.utf8_encode s ∧
  (Uri.encodeURIComponent s = None ↔ Encoding.utf8_encode s = None) ∧
  ∀ e, Uri.encodeURIComponent s = Some e → Forall (λ b, b < 256)%N (Uri.unescape e).
Proof.
  intros Hs. pose proof (unescape_encodeURIComponent s Hs) as Heq.
  split; [done|]. split.
  - destruct (Uri.encodeURIComponent s), (Encoding.utf8_encode s); naive_solver.
  - intros e He. rewrite He in Heq. symmetry in Heq.
    by apply (utf8_encode_octets s).
Qed.

Lemma data_url_payload_is_utf8_witness :
  let s := Js.lit "<svg>" ++ [0xE9; 0xD83D; 0xDE00]%N in
  Forall (λ c, c < 0x10000)%N s ∧
  Uri.unescape <$> Uri.encodeURIComponent s
  = Some (Js.lit "<svg>" ++ [0xC3; 0xA9; 0xF0; 0x9F; 0x98; 0x80]%N).
Proof.
  intros s.
  assert (Forall (λ c, c < 0x10000)%N s) as Hs by (repeat constructor).
  split; [exact Hs|].
  exact (eq_trans (proj1 (data_url_payload_is_utf8 s Hs)) eq_refl).
Defined.

(** *** The draw.io link *)

Lemma encode_cons (c : N) (s : jsstring) :
  Encoding.is_high_surrogate c = false →
  Uri.encodeURIComponent (c :: s) =
  h ← Uri.encodeURIComponent [c]; (h ++.) <$> Uri.encodeURIComponent s.
Proof.
  intros Hh. cbn [Uri.encodeURIComponent]. rewrite Hh.
  destruct (Uri.unreserved c); [by destruct (Uri.encodeURIComponent s)|].
  destruct (Encoding.is_low_surrogate c); [done|].
  cbn [fmap option_fmap option_map mbind option_bind]. by rewrite app_nil_r.
Qed.

Lemma encode_pair (c d : N) (s : jsstring) :
  Encoding.is_high_surrogate c = true →
  Uri.encodeURIComponent (c :: d :: s) =
  if Encoding.is_low_surrogate d then
    (Uri.percent_encode (0x10000 + (c - 0xD800) * 0x400 + (d - 0xDC00))%N ++.)
    <$> Uri.encodeURIComponent s
  else None.
Proof.
  intros Hh. cbn [Uri.encodeURIComponent].
  by rewrite surrogate_reserved, Hh by by left.
Qed.

Lemma encode_lone_high (c : N) :
  Encoding.is_high_surrogate c = true → Uri.encodeURIComponent [c] = None.
Proof.
  intros Hh. cbn [Uri.encodeURIComponent]. by rewrite surrogate_reserved, Hh by by left.
Qed.

(** Encoding goes through concatenation after a string that encodes. *)
Lemma encode_app (x y ex : jsstring) :
  Uri.encodeURIComponent x = Some ex →
  Uri.encodeURIComponent (x ++ y) = (ex ++.) <$> Uri.encodeURIComponent y.
Proof.
  revert ex. induction x as [|c|c d x IHx IHd] using list_ind_two; intros ex.
  - intros [= <-]. cbn [app]. by destruct (Uri.encodeURIComponent y).
  - destruct (Encoding.is_high_surrogate c) eqn:Hh; [by rewrite encode_lone_high|].
    intros Hc. cbn [app]. rewrite encode_cons, Hc by done. done.
  - destruct (Encoding.is_high_surrogate c) eqn:Hh.
    + cbn [app]. rewrite !encode_pair by done.
      destruct (Encoding.is_low_surrogate d); [|done].
      destruct (Uri.encodeURIComponent x) as [e|] eqn:He; [|done].
      intros [= <-]. rewrite (IHx e eq_refl).
      destruct (Uri.encodeURIComponent y); [|done].
      cbn [fmap option_fmap option_map]. by rewrite app_assoc.
    + rewrite encode_cons by done.
      destruct (Uri.encodeURIComponent [c]) as [h|] eqn:Hc; [|done].
      destruct (Uri.encodeURIComponent (d :: x)) as [e|] eqn:He; [|done].
      cbn [mbind option_bind fmap option_fmap option_map]. intros [= <-].
      change ((c :: d :: x) ++ y) with (c :: ((d :: x) ++ y)).
      rewrite encode_cons, Hc, (IHd e eq_refl) by done.
      destruct (Uri.encodeURIComponent y); [|done].
      cbn [mbind option_bind fmap option_fmap option_map]. by rewrite app_assoc.
Qed.

Lemma hex_lower_unreserved (n : N) : (n < 16)%N → Uri.unreserved (Json.hex_lower n) = true.
Proof. revert n. each_below_16. Qed.

Lemma utf8_length (cp : N) :
  (1 ≤ length (Encoding.utf8_of_code_point cp) ≤ 4)%nat ∧
  ((cp < 0x10000)%N → (length (Encoding.utf8_of_code_point cp) ≤ 3)%nat).
Proof.
  unfold Encoding.utf8_of_code_point.
  repeat (match goal with |- context [(?x <? ?y)%N] => destruct (N.ltb_spec x y) end);
    simpl; split; lia.
Qed.

Lemma percent_encode_length (cp : N) :
  length (Uri.percent_encode cp) = (3 * length (Encoding.utf8_of_code_point cp))%nat.
Proof.
  unfold Uri.percent_encode. induction (Encoding.utf8_of_code_point cp) as [|b bs IH]; [done|].
  cbn [fmap list_fmap mjoin list_join]. rewrite length_app.
  etransitivity; [apply f_equal; exact IH|]. simpl. lia.
Qed.

(** What [JSON.stringify] writes for one code unit always encodes, to at
    least one character and, for a code unit, to at most nine. *)
Lemma encode_quote_unit (c : N) :
  ∃ e, Uri.encodeURIComponent (Json.quote_unit c) = Some e ∧ (1 ≤ length e)%nat ∧
       ((c < 0x10000)%N → (length e ≤ 9)%nat).
Proof.
  unfold Json.quote_unit.
  repeat (match goal with
          | |- context [(?x =? ?y)%N] =>
              destruct (N.eqb_spec x y); [eexists; split; [vm_compute; reflexivity|simpl; lia]|]
          end).
  destruct ((c <? 0x20)%N || Encoding.is_high_surrogate c || Encoding.is_low_surrogate c)
    eqn:Hesc.
  - assert (c < 0x10000)%N as Hc.
    { repeat (apply orb_prop in Hesc as [Hesc|Hesc]).
      - apply N.ltb_lt in Hesc. lia.
      - apply surrogate_range in Hesc. lia.
      - apply surrogate_range in Hesc. lia. }
    unfold Json.unicode_escape.
    assert (c / 0x1000 < 16)%N by lia_div.
    assert ((c / 0x100) mod 16 < 16)%N by lia_div.
    assert ((c / 0x10) mod 16 < 16)%N by lia_div.
    assert (c mod 16 < 16)%N by lia_div.
    eexists. split.
    + change (0x5C :: ?l)%N with ([0x5C]%N ++ l).
      rewrite (encode_app [0x5C]%N _ (Js.lit "%5C")) by (vm_compute; reflexivity).
      cbn [Uri.encodeURIComponent]. rewrite !hex_lower_unreserved by done.
      change (Uri.unreserved 117) with true. cbn. reflexivity.
    + simpl. lia.
  - apply orb_false_elim in Hesc as [Hesc Hlo]. apply orb_false_elim in Hesc as [_ Hhi].
    cbn [Uri.encodeURIComponent]. rewrite Hhi, Hlo.
    destruct (Uri.unreserved c); [eexists; split; [reflexivity|simpl; lia]|].
    eexists. split; [reflexivity|].
    cbn [fmap option_fmap option_map]. rewrite app_nil_r, percent_encode_length.
    pose proof (utf8_length c) as [[H1 H4] H3]. split; [lia|]. intros Hc. specialize (H3 Hc). lia.
Qed.

Lemma quote_body_cons (c : N) (s : jsstring) :
  Encoding.is_high_surrogate c = false ∨
  (∀ d s', s = d :: s' → Encoding.is_low_surrogate d = false) →
  Json.quote_body (c :: s) = Json.quote_unit c ++ Json.quote_body s.
Proof.
  intros H. destruct s as [|d s].
  - cbn [Json.quote_body]. destruct (Encoding.is_high_surrogate c); by rewrite ?app_nil_r.
  - change (Json.quote_body (c :: d :: s)) with
      (if Encoding.is_high_surrogate c then
         if Encoding.is_low_surrogate d then c :: d :: Json.quote_body s
         else Json.quote_unit c ++ Json.quote_body (d :: s)
       else Json.quote_unit c ++ Json.quote_body (d :: s)).
    destruct H as [->|H]; [done|]. rewrite (H d s eq_refl).
    by destruct (Encoding.is_high_surrogate c).
Qed.

(** The quoted body of a string always encodes: a surrogate without its
    partner has become [\uXXXX].  Each code unit gives at least one
    character and at most nine. *)
Lemma encode_quote_body (s : jsstring) :
  ∃ e, Uri.encodeURIComponent (Json.quote_body s) = Some e ∧
       (length s ≤ length e)%nat ∧
       (Forall (λ c, c < 0x10000)%N s → (length e ≤ 9 * length s)%nat).
Proof.
  induction s as [|c|c d s IHs IHd] using list_ind_two.
  - exists []. by repeat split.
  - destruct (encode_quote_unit c) as (e & He & H1 & H9).
    exists e. split.
    + rewrite quote_body_cons by (right; intros ?? [=]). by rewrite app_nil_r.
    + split; [simpl; lia|]. intros [Hc _]%Forall_cons. specialize (H9 Hc). simpl. lia.
  - destruct (Encoding.is_high_surrogate c && Encoding.is_low_surrogate d) eqn:Hpair.
    + apply andb_prop in Hpair as [Hh Hl].
      destruct IHs as (e & He & Hlo & Hup).
      eexists. split.
      { cbn [Json.quote_body]. rewrite Hh, Hl, encode_pair, Hl, He by done. reflexivity. }
      rewrite length_app, percent_encode_length.
      pose proof (utf8_length (0x10000 + (c - 0xD800) * 0x400 + (d - 0xDC00))%N) as [[H1 H4] _].
      split; [simpl; lia|]. intros [_ [_ Hs]%Forall_cons]%Forall_cons.
      specialize (Hup Hs). simpl. lia.
    + destruct IHd as (e & He & Hlo & Hup).
      destruct (encode_quote_unit c) as (h & Hc & H1 & H9).
      exists (h ++ e). split.
      { rewrite quote_body_cons.
        - rewrite (encode_app _ _ h Hc). by rewrite He.
        - apply andb_false_iff in Hpair as [Hh|Hl]; [by left|right].
          by intros ?? [= <- <-]. }
      rewrite length_app. split; [simpl in *; lia|].
      intros [Hc' Hds]%Forall_cons. specialize (Hup Hds). specialize (H9 Hc'). simpl in *. lia.
Qed.

Lemma Forall_trim {Q : N → Prop} (s : jsstring) : Forall Q s → Forall Q (Js.trim s).
Proof.
  assert (∀ l, Forall Q l → Forall Q (Js.trim_start l)) as Hstart.
  { induction 1 as [|c l Hc Hl IH]; simpl; [done|]. destruct (Js.is_white_space c); auto. }
  intros Hs. unfold Js.trim, Js.trim_end.
  by apply Forall_reverse, Hstart, Forall_reverse, Hstart.
Qed.

Lemma stringify_payload (t : jsstring) :
  Json.stringify [("type", Js.lit "mermaid"); ("data", t)] =
  payload_open ++ Json.quote_body t ++ payload_close.
Proof.
  unfold Json.stringify, Json.members, Json.quote, payload_open, payload_close.
  rewrite <- !app_assoc. reflexivity.
Qed.

(** What the [try] block of [generateDrawIOUrl] comes to: the quoted,
    trimmed diagram encodes to some [e], the URL is the fixed 87 characters
    around it, and the only question left is its length. *)
Lemma build_cases (content : jsstring) :
  ∃ e, Uri.encodeURIComponent (Json.quote_body (Js.trim content)) = Some e ∧
       (length (Js.trim content) ≤ length e)%nat ∧
       (Forall (λ c, c < 0x10000)%N content → (length e ≤ 9 * length (Js.trim content))%nat) ∧
       let url := DrawIO.prefix ++ encoded_open ++ e ++ encoded_close in
       length url = (87 + length e)%nat ∧
       DrawIO.build content =
       if (2000 <? length url)%nat then DrawIO.Threw DrawIO.TooLarge else DrawIO.Returned url.
Proof.
  destruct (encode_quote_body (Js.trim content)) as (e & He & Hlo & Hup).
  exists e. split; [done|]. split; [done|]. split; [intros H; by apply Hup, Forall_trim|].
  split; [rewrite !length_app; simpl; lia|].
  unfold DrawIO.build. rewrite stringify_payload.
  rewrite (encode_app payload_open _ encoded_open) by (vm_compute; reflexivity).
  rewrite (encode_app _ payload_close e He).
  change (Uri.encodeURIComponent payload_close) with (Some encoded_close).
  reflexivity.
Qed.

(** X2.  [generateDrawIOUrl] never fails on the text of the diagram: the
    only error it throws is the one for a URL of more than 2000 characters,
    and then it has logged that error once.  A URL it returns has at most
    2000 characters, is [https://app.diagrams.net/?create=] followed by the
    encoded JSON payload, and nothing is logged. *)
Theorem generateDrawIOUrl_outcomes (content : jsstring) :
  (∀ err, (DrawIO.generateDrawIOUrl content).2 = DrawIO.Threw err →
     err = DrawIO.TooLarge ∧
     (DrawIO.generateDrawIOUrl content).1 = [("Error generating draw.io URL:", DrawIO.TooLarge)]) ∧
  (∀ url, (DrawIO.generateDrawIOUrl content).2 = DrawIO.Returned url →
     (length url ≤ 2000)%nat ∧ (DrawIO.generateDrawIOUrl content).1 = [] ∧
     ∃ e, url = DrawIO.prefix ++ e ∧
          Uri.encodeURIComponent
            (Json.stringify [("type", Js.lit "mermaid"); ("data", Js.trim content)]) = Some e).
Proof.
  destruct (build_cases content) as (e & He & _ & _ & Hlen & Hbuild). cbv zeta in Hlen, Hbuild.
  unfold DrawIO.generateDrawIOUrl. rewrite Hbuild.
  destruct (Nat.ltb_spec 2000 (length (DrawIO.prefix ++ encoded_open ++ e ++ encoded_close)))
    as [Hbig|Hfit]; cbn [fst snd].
  - split; [by intros err [= <-]|done].
  - split; [done|]. intros url [= <-]. split; [done|]. split; [done|].
    eexists. split; [reflexivity|].
    rewrite stringify_payload.
    rewrite (encode_app payload_open _ encoded_open) by (vm_compute; reflexivity).
    rewrite (encode_app _ payload_close e He).
    reflexivity.
Qed.

(** X3.  A diagram of more than 1913 code units after trimming can never
    be opened in draw.io: whatever it consists of, the URL is longer than
    2000 characters and [generateDrawIOUrl] throws. *)
Theorem generateDrawIOUrl_too_large (content : jsstring) :
  (1913 < length (Js.trim content))%nat →
  (DrawIO.generateDrawIOUrl content).2 = DrawIO.Threw DrawIO.TooLarge.
Proof.
  intros Hlong.
  destruct (build_cases content) as (e & _ & Hlo & _ & Hlen & Hbuild). cbv zeta in Hlen, Hbuild.
  unfold DrawIO.generateDrawIOUrl. rewrite Hbuild.
  destruct (Nat.ltb_spec 2000 (length (DrawIO.prefix ++ encoded_open ++ e ++ encoded_close)));
    [done|lia].
Qed.

Lemma generateDrawIOUrl_too_large_witness :
  let content := replicate 1914 0x41%N in
  (1913 < length (Js.trim content))%nat ∧
  (DrawIO.generateDrawIOUrl content).2 = DrawIO.Threw DrawIO.TooLarge.
Proof.
  intros content.
  assert (1913 < length (Js.trim content))%nat as H
    by (apply Nat.ltb_lt; vm_compute; reflexivity).
  split; [exact H|]. exact (generateDrawIOUrl_too_large content H).
Defined.

(** X4.  A diagram of at most 212 code units after trimming always gets
    its URL, whatever characters it holds: each code unit takes at most
    nine characters of the 2000. *)
Theorem generateDrawIOUrl_small (content : jsstring) :
  Forall (λ c, c < 0x10000)%N content →
  (length (Js.trim content) ≤ 212)%nat →
  ∃ url, DrawIO.generateDrawIOUrl content = ([], DrawIO.Returned url).
Proof.
  intros Hunits Hshort.
  destruct (build_cases content) as (e & _ & _ & Hup & Hlen & Hbuild). cbv zeta in Hlen, Hbuild.
  specialize (Hup Hunits).
  unfold DrawIO.generateDrawIOUrl. rewrite Hbuild.
  destruct (Nat.ltb_spec 2000 (length (DrawIO.prefix ++ encoded_open ++ e ++ encoded_close)));
    [lia|]. by eexists.
Qed.

Lemma generateDrawIOUrl_small_witness :
  let content := Js.lit " graph TD; A-->B " in
  (Forall (λ c, c < 0x10000)%N content ∧ (length (Js.trim content) ≤ 212)%nat) ∧
  ∃ url, DrawIO.generateDrawIOUrl content = ([], DrawIO.Returned url).
Proof.
  intros content.
  assert (Forall (λ c, c < 0x10000)%N content) as Hu by (repeat constructor).
  assert (length (Js.trim content) ≤ 212)%nat as Hs
    by (apply Nat.leb_le; vm_compute; reflexivity).
  split; [by split|]. exact (generateDrawIOUrl_small content Hu Hs).
Defined.

(** X5.  [handleOpenInDrawIO] does one of two things and never both: it
    opens one new tab on a URL of at most 2000 characters and leaves the
    error message alone, or it opens nothing, sets the error message to the
    fixed text and logs the size error twice (once in [generateDrawIOUrl],
    once in its own [catch]).  The diagram is not touched. *)
Theorem handleOpenInDrawIO_outcomes (p : DrawIO.Page) :
  let p' := DrawIO.handleOpenInDrawIO p in
  DrawIO.mermaidDiagram p' = DrawIO.mermaidDiagram p ∧
  ((∃ url, DrawIO.opened p' = DrawIO.opened p ++ [(url, "_blank", "noopener,noreferrer")] ∧
           (length url ≤ 2000)%nat ∧
           DrawIO.error p' = DrawIO.error p ∧ DrawIO.logged p' = DrawIO.logged p)
   ∨ (DrawIO.opened p' = DrawIO.opened p ∧
      DrawIO.error p' = Js.lit "Unable to open in draw.io: Diagram may be too large" ∧
      DrawIO.logged p' = DrawIO.logged p ++
        [("Error generating draw.io URL:", DrawIO.TooLarge);
         ("Draw.io integration error:", DrawIO.TooLarge)])).
Proof.
  intros p'. subst p'.
  destruct (build_cases (DrawIO.mermaidDiagram p)) as (e & _ & _ & _ & Hlen & Hbuild).
  cbv zeta in Hlen, Hbuild.
  unfold DrawIO.handleOpenInDrawIO, DrawIO.generateDrawIOUrl. rewrite Hbuild.
  destruct (Nat.ltb_spec 2000 (length (DrawIO.prefix ++ encoded_open ++ e ++ encoded_close)));
    cbn [DrawIO.opened DrawIO.error DrawIO.logged DrawIO.mermaidDiagram].
  - split; [done|]. by right.
  - split; [done|]. left. eexists. by rewrite app_nil_r.
Qed.

(** *** The address of the video *)

Lemma starts_with_app (l s : jsstring) :
  Js.starts_with l s = true → s = l ++ drop (length l) s.
Proof.
  revert s. induction l as [|p l IH]; intros [|c s] H; simpl in *; try done.
  apply andb_prop in H as [Hc%N.eqb_eq Hs]. subst. f_equal. by apply IH.
Qed.

Lemma starts_with_prefix (l r : jsstring) : Js.starts_with l (l ++ r) = true.
Proof. induction l as [|p l IH]; [done|]. simpl. by rewrite N.eqb_refl. Qed.

(** The matcher finds what the pattern describes. *)
Lemma m_sound (r : Regex.t) : ∀ s k,
  Regex.m r s k = true → ∃ a b, s = a ++ b ∧ lang r a ∧ k b = true.
Proof.
  induction r as [l|p|r1 IH1 r2 IH2|r1 IH1 r2 IH2|r IH|r IH]; intros s k H; cbn [Regex.m] in H.
  - apply andb_prop in H as [Hl Hk]. exists l, (drop (length l) s).
    split; [by apply starts_with_app|done].
  - destruct s as [|c s]; [done|]. apply andb_prop in H as [Hp Hk].
    exists [c], s. split; [done|]. split; [by exists c|done].
  - apply IH1 in H as (a1 & b1 & -> & H1 & H).
    apply IH2 in H as (a2 & b2 & -> & H2 & H).
    exists (a1 ++ a2), b2. rewrite <- app_assoc. split; [done|].
    split; [by exists a1, a2|done].
  - apply orb_prop in H as [H|H]; [apply IH1 in H|apply IH2 in H];
      destruct H as (a & b & -> & H & Hk); exists a, b; simpl; tauto.
  - apply orb_prop in H as [H|H].
    + apply IH in H as (a & b & -> & H & Hk). exists a, b. simpl. tauto.
    + exists [], s. simpl. tauto.
  - revert H. generalize (length s) as n. intros n. revert s.
    induction n as [|n IHn]; intros s H; apply IH in H as (a & b & -> & Ha & H);
      apply orb_prop in H as [H|H]; try done.
    + exists a, b. split; [done|]. split; [|done]. exists 0%nat, a, []. by rewrite app_nil_r.
    + apply IHn in H as (a' & b' & -> & [j Hj] & Hk).
      exists (a ++ a'), b'. rewrite <- app_assoc. split; [done|]. split; [|done].
      exists (S j), a, a'. done.
    + exists a, b. split; [done|]. split; [|done]. exists 0%nat, a, []. by rewrite app_nil_r.
Qed.

Lemma m_complete (r : Regex.t) : ∀ a b k,
  lang r a → k b = true → Regex.m r (a ++ b) k = true.
Proof.
  induction r as [l|p|r1 IH1 r2 IH2|r1 IH1 r2 IH2|r IH|r IH]; intros a b k Ha Hk; cbn [Regex.m].
  - simpl in Ha. subst a. rewrite starts_with_prefix, drop_app_length. done.
  - destruct Ha as (c & -> & Hp). simpl. by rewrite Hp, Hk.
  - destruct Ha as (a1 & a2 & -> & H1 & H2). rewrite <- app_assoc.
    apply IH1; [done|]. by apply IH2.
  - destruct Ha as [Ha|Ha]; [rewrite (IH1 a b k Ha Hk)|rewrite (IH2 a b k Ha Hk)];
      [done|apply orb_true_r].
  - destruct Ha as [->|Ha]; [simpl; rewrite Hk; apply orb_true_r|].
    by rewrite (IH a b k Ha Hk).
  - destruct Ha as [j Hj].
    assert (∀ n j a, (length a ≤ n)%nat → iterated (lang r) (S j) a →
      (fix again (n : nat) (s : jsstring) : bool :=
         Regex.m r s (λ s', match n with S n' => again n' s' | O => false end || k s'))
        n (a ++ b) = true) as Hloop.
    { clear a j Hj. induction n as [|n IHn]; intros j; induction j as [|j IHj];
        intros a Hlen (a1 & a2 & -> & H1 & H2).
      - simpl in H2. subst a2. rewrite app_nil_r. apply IH; [done|]. by rewrite Hk.
      - destruct a1 as [|c a1]; [|rewrite length_app in Hlen; simpl in Hlen; lia].
        apply (IHj a2); [by rewrite length_app in Hlen|done].
      - simpl in H2. subst a2. rewrite app_nil_r. apply IH; [done|].
        rewrite Hk. apply orb_true_r.
      - destruct a1 as [|c a1]; [apply (IHj a2); [by rewrite length_app in Hlen|done]|].
        rewrite <- app_assoc. apply IH; [done|].
        rewrite (IHn j a2); [done| |done].
        rewrite length_app in Hlen. simpl in Hlen. lia. }
    apply (Hloop _ j a); [rewrite length_app; lia|done].
Qed.

Lemma test_iff (r : Regex.t) (s : jsstring) :
  Regex.test r s = true ↔ ∃ a b, s = a ++ b ∧ lang r a.
Proof.
  unfold Regex.test. split.
  - intros H. apply m_sound in H as (a & b & -> & Ha & _). by exists a, b.
  - intros (a & b & -> & Ha). by apply m_complete.
Qed.

Lemma iterated_class (p : N → bool) (n : nat) (a : jsstring) :
  iterated (lang (Regex.Class p)) (S n) a → ∃ c rest, a = c :: rest ∧ p c = true.
Proof. intros (a1 & a2 & -> & (c & -> & Hc) & _). by exists c, a2. Qed.

Lemma youtubeRegex_lang (a : jsstring) :
  lang Chat.youtubeRegex a → youtube_shape a.
Proof.
  intros (sch & a1 & -> & Hsch & www & a2 & -> & Hwww & host & id & -> & Hhost & [n Hid]).
  apply iterated_class in Hid as (c & rest & -> & Hc).
  exists sch, www, host, c, rest. split; [|split; [|split; [|done]]].
  - destruct Hsch as [->|(h & a1 & -> & -> & s & c' & -> & [->| ->] & ->)]; solve [repeat constructor].
  - destruct Hwww as [->| ->]; solve [repeat constructor].
  - destruct Hhost as [(h & p & -> & -> & [->| ->])| ->]; solve [repeat constructor].
Qed.

Lemma youtube_shape_lang (u : jsstring) :
  youtube_shape u → ∃ a b, u = a ++ b ∧ lang Chat.youtubeRegex a.
Proof.
  intros (sch & www & host & c & rest & Hsch & Hwww & Hhost & Hc & ->).
  exists (sch ++ www ++ host ++ [c]), rest. split; [by rewrite <- !app_assoc|].
  exists sch, (www ++ host ++ [c]). split; [done|]. split.
  { apply elem_of_cons in Hsch as [->|Hsch]; [by left|right].
    apply elem_of_cons in Hsch as [->|Hsch%list_elem_of_singleton].
    - exists (Js.lit "http"), (Js.lit "://"). split; [done|]. split; [done|].
      exists [], (Js.lit "://"). split; [done|]. split; [by left|done].
    - subst. exists (Js.lit "http"), (Js.lit "s://"). split; [done|]. split; [done|].
      exists (Js.lit "s"), (Js.lit "://"). split; [done|]. split; [by right|done]. }
  exists www, (host ++ [c]). split; [done|]. split.
  { apply elem_of_cons in Hwww as [->|Hwww%list_elem_of_singleton]; [by left|subst; by right]. }
  exists host, [c]. split; [done|]. split.
  { apply elem_of_cons in Hhost as [->|Hhost].
    { left. exists (Js.lit "youtube.com/"), (Js.lit "watch?v="). split; [done|]. split; [done|]. by left. }
    apply elem_of_cons in Hhost as [->|Hhost%list_elem_of_singleton]; subst.
    - left. exists (Js.lit "youtube.com/"), (Js.lit "embed/"). split; [done|]. split; [done|]. by right.
    - by right. }
  exists 0%nat, [c], []. split; [done|]. split; [by exists c|done].
Qed.

(** What [youtubeRegex.test] accepts. *)
Lemma youtubeRegex_test (u : jsstring) :
  Regex.test Chat.youtubeRegex u = true ↔ youtube_shape u.
Proof.
  rewrite test_iff. split; [|apply youtube_shape_lang].
  intros (a & b & -> & Ha). apply youtubeRegex_lang in Ha
    as (sch & www & host & c & rest & Hsch & Hwww & Hhost & Hc & ->).
  exists sch, www, host, c, (rest ++ b). repeat split; try done.
  by rewrite <- !app_assoc.
Qed.

Lemma youtube_shape_nonempty : ¬ youtube_shape [].
Proof.
  intros (sch & www & host & c & rest & _ & _ & _ & _ & H).
  destruct sch, www, host; discriminate.
Qed.

(** X6.  [handleSubmit] starts a request exactly when the trimmed address
    has the shape of a YouTube address.  Then the request carries the
    address as typed, not trimmed, the form is loading, and the error, the
    diagram and the description are cleared.  Otherwise nothing is requested
    and the diagram on the page stays: only the error message is set, to one
    text for a blank address and to another for any other address. *)
Theorem handleSubmit_validates (s : Chat.State) :
  let u := Js.trim (Chat.ytUrl s) in
  let s' := Chat.handleSubmit s in
  (youtube_shape u ∧
   Chat.requests s' = Chat.requests s ++ [Chat.ytUrl s] ∧
   Chat.waiting s' = S (Chat.waiting s) ∧ Chat.isLoading s' = true ∧
   Chat.error s' = [] ∧ Chat.mermaidDiagram s' = [] ∧ Chat.description s' = [])
  ∨ (¬ youtube_shape u ∧
     Chat.requests s' = Chat.requests s ∧
     Chat.waiting s' = Chat.waiting s ∧ Chat.isLoading s' = Chat.isLoading s ∧
     Chat.mermaidDiagram s' = Chat.mermaidDiagram s ∧
     Chat.description s' = Chat.description s ∧
     Chat.error s' = if Js.truthy u then Js.lit "Please enter a valid YouTube URL"
                     else Js.lit "Please enter a YouTube URL").
Proof.
  intros u s'. subst u s'. unfold Chat.handleSubmit.
  destruct (Js.trim (Chat.ytUrl s)) as [|c u] eqn:Hu; cbn [Js.truthy negb].
  - right. split; [apply youtube_shape_nonempty|done].
  - destruct (Regex.test Chat.youtubeRegex (c :: u)) eqn:Htest; cbn [negb].
    + left. split; [by apply youtubeRegex_test|done].
    + right. split; [|done]. intros H%youtubeRegex_test. congruence.
Qed.

(** X7.  The pattern is anchored at the start only: an address that
    passes the validation passes it with anything appended. *)
Theorem youtubeRegex_open_ended (u t : jsstring) :
  Regex.test Chat.youtubeRegex u = true →
  Regex.test Chat.youtubeRegex (u ++ t) = true.
Proof.
  rewrite !test_iff. intros (a & b & -> & Ha). exists a, (b ++ t).
  by rewrite <- app_assoc.
Qed.

Lemma youtubeRegex_open_ended_witness :
  let u := Js.lit "youtu.be/x" in
  let t := Js.lit " is <not> a video" in
  Regex.test Chat.youtubeRegex u = true ∧ Regex.test Chat.youtubeRegex (u ++ t) = true.
Proof.
  intros u t.
  assert (Regex.test Chat.youtubeRegex u = true) as H by (vm_compute; reflexivity).
  split; [exact H|]. exact (youtubeRegex_open_ended u t H).
Defined.

Lemma act_keeps_turn (s : Chat.State) (a : Chat.Action) :
  idle s ∨ loading s → idle (Chat.act s a) ∨ loading (Chat.act s a).
Proof.
  intros Hs. unfold Chat.act. destruct (Chat.offered a s) eqn:Hoff; [|done].
  destruct a as [v| | |now|md ds|err]; cbn [Chat.handle Chat.offered] in *.
  - destruct Hs as [[Hl Hw]|(Hl & _)]; [by left|]. by rewrite Hl in Hoff.
  - unfold Chat.isButtonDisabled in Hoff.
    destruct Hs as [[Hl Hw]|(Hl & _)]; [|by rewrite Hl in Hoff].
    unfold Chat.handleSubmit. repeat case_match; [by left..|].
    right. unfold loading. simpl. by rewrite Hw.
  - destruct Hs as [[Hl Hw]|(_ & _ & Hd & _)]; [by left|]. by rewrite Hd in Hoff.
  - destruct Hs as [[Hl Hw]|(_ & _ & Hd & _)]; [|by rewrite Hd in Hoff].
    left. unfold Chat.handleDownload. by case_match.
  - left. destruct Hs as [[Hl Hw]|(_ & Hw & _)]; split; simpl; by rewrite ?Hw.
  - left. destruct Hs as [[Hl Hw]|(_ & Hw & _)]; split; simpl; by rewrite ?Hw.
Qed.

Lemma act_requests (s : Chat.State) (a : Chat.Action) :
  Forall (λ u, youtube_shape (Js.trim u)) (Chat.requests s) →
  Forall (λ u, youtube_shape (Js.trim u)) (Chat.requests (Chat.act s a)).
Proof.
  intros Hs. unfold Chat.act. destruct (Chat.offered a s); [|done].
  destruct a as [v| | |now|md ds|err]; cbn [Chat.handle]; try done.
  - unfold Chat.handleSubmit. repeat case_match; try done. simpl.
    apply Forall_app. split; [done|]. apply Forall_singleton.
    apply youtubeRegex_test. by apply negb_false_iff.
  - unfold Chat.handleDownload. by case_match.
Qed.

(** X8.  Whatever the user does with the page as it is rendered, where
    a disabled control and a button that is not there do nothing, the form
    is either idle with no request under way, or loading with exactly one
    request under way and no diagram, description or error on the page.
    Every address that was ever requested passed the validation. *)
Theorem one_request_at_a_time (actions : list Chat.Action) :
  let s := Chat.session actions in
  (idle s ∨ loading s) ∧
  Forall (λ u, youtube_shape (Js.trim u)) (Chat.requests s).
Proof.
  unfold Chat.session. induction actions as [|a actions IH] using rev_ind.
  - split; [by left|constructor].
  - rewrite foldl_app. cbn [foldl]. destruct IH as [Hturn Hreq].
    split; [by apply act_keeps_turn|by apply act_requests].
Qed.

(** *** The name of the downloaded file *)

Lemma includes_first_absent (p : N) (pat s : jsstring) :
  Forall (λ c, c ≠ p) s → Js.includes (p :: pat) s = false.
Proof.
  induction 1 as [|c s Hc _ IH]; [done|].
  cbn [Js.includes Js.starts_with]. rewrite IH.
  apply N.eqb_neq in Hc. rewrite N.eqb_sym in Hc. by rewrite Hc.
Qed.

Lemma digits_no_dot (fuel : nat) (n : N) (acc : jsstring) :
  Forall (λ c, c ≠ 0x2E%N) acc → Forall (λ c, c ≠ 0x2E%N) (Js.digits fuel n acc).
Proof.
  revert n acc. induction fuel as [|fuel IH]; intros n acc Hacc; [done|].
  cbn [Js.digits].
  assert (Forall (λ c, c ≠ 0x2E%N) ((0x30 + n mod 10)%N :: acc)) as Hacc'
    by (constructor; [generalize (n mod 10)%N; lia|done]).
  destruct (n <? 10)%N; [done|by apply IH].
Qed.

Lemma of_Z_no_dot (z : Z) : Forall (λ c, c ≠ 0x2E%N) (Js.of_Z z).
Proof.
  destruct z as [|p|p]; unfold Js.of_Z.
  - by repeat constructor.
  - by apply digits_no_dot.
  - apply Forall_app. split; [by repeat constructor|by apply digits_no_dot].
Qed.

Lemma download_name_fallback (now : Z) :
  fallback_filename (Chat.download_name now) =
  (Js.lit "youtube-diagram-" ++ Js.of_Z now) ++ Js.lit ".svg".
Proof.
  unfold Chat.download_name. rewrite app_assoc. apply fallback_filename_suffix.
  apply (includes_first_absent 0x2E%N), Forall_app. split; [|apply of_Z_no_dot].
  apply Forall_forall. intros c Hc ->. vm_compute in Hc.
  repeat (apply elem_of_cons in Hc as [Hc|Hc]; [discriminate|]). by apply elem_of_nil in Hc.
Qed.

(** X9.  The file behind the download button: an export under the name
    that [handleDownload] builds ends in [youtube-diagram-<now>.png] when
    the encoder delivers, and in [youtube-diagram-<now>.svg] with the
    serialized diagram in each of the three fallbacks.  The name holds one
    [.png] only, so the exchange of the first [.png] is the exchange of the
    extension. *)
Theorem download_button_file (P : Platform) (now : Z) (env : ExportEnv) (w : World)
    (p : list nat) (svg : Node) (f : Fate) :
  mounted w ≫= Dom.querySelector "svg" = Some (p, svg) →
  context2d env = true →
  is_Some (Encoding.utf8_encode (export_markup P env svg)) →
  let stem := Js.lit "youtube-diagram-" ++ Js.of_Z now in
  let w' := run P (Export (Some (Chat.download_name now)) env ::
                   completion (length (images w)) (length (encodings w)) f) w in
  downloads w' = downloads w ++
    [ match f with
      | Encoded png => {| dl_filename := stem ++ Js.lit ".png"; dl_blob := PngBlob png |}
      | _ => {| dl_filename := stem ++ Js.lit ".svg";
                dl_blob := SvgBlob (export_markup P env svg) |}
      end ].
Proof.
  intros Hsvg Hctx [bytes Henc] stem w'. subst w'.
  destruct (downloadAsPNG_started P (Some (Chat.download_name now)) env w p svg bytes
              Hsvg Hctx Henc) as (Him & Hen & Hdl & _).
  change (run P (Export ?fn env :: ?es) w) with (run P es (downloadAsPNG P fn env w)).
  destruct (completion_downloads P w _ f _ Him Hen) as (Hd & _).
  rewrite Hd, Hdl. f_equal. cbn [img_filename img_svgData requested default id].
  destruct f; cbn [produced]; rewrite ?download_name_fallback; done.
Qed.

Lemma download_button_file_witness :
  let w := Fixture.showing_diagram in
  let env := Fixture.env_int in
  let w' := run Fixture.platform
              [Export (Some (Chat.download_name 1700000000000)) env; ImageError 0] w in
  (mounted w ≫= Dom.querySelector "svg" = Some ([0%nat], Fixture.shown_svg) ∧
   context2d env = true ∧
   is_Some (Encoding.utf8_encode (export_markup Fixture.platform env Fixture.shown_svg))) ∧
  dl_filename <$> downloads w' = [Js.lit "youtube-diagram-1700000000000.svg"].
Proof.
  intros w env w'.
  assert (∀ A B : Prop, A → (A → B) → A ∧ B) as both by tauto.
  apply both.
  - split; [vm_compute; reflexivity|]. split; [reflexivity|].
    vm_compute. eexists. reflexivity.
  - intros (Hsvg & Hctx & Henc).
    exact (f_equal (fmap dl_filename)
             (download_button_file Fixture.platform 1700000000000 env w
                [0%nat] Fixture.shown_svg DecodeFails Hsvg Hctx Henc)).
Defined.

(** X10.  Downloads asked for at different clock readings get different
    names. *)
Theorem download_names_differ (t1 t2 : Z) :
  0 ≤ t1 → 0 ≤ t2 → t1 ≠ t2 → Chat.download_name t1 ≠ Chat.download_name t2.
Proof.
  intros H1 H2 Hne Heq. unfold Chat.download_name in Heq.
  apply app_inv_head, app_inv_tail in Heq.
  apply (f_equal (decimal 0)) in Heq. rewrite !decimal_of_Z in Heq by done. lia.
Qed.

Lemma download_names_differ_witness :
  (0 ≤ 1700000000000 ∧ 0 ≤ 1700000000001 ∧ 1700000000000 ≠ 1700000000001) ∧
  Chat.download_name 1700000000000 ≠ Chat.download_name 1700000000001.
Proof.
  assert (0 ≤ 1700000000000) as H1 by lia.
  assert (0 ≤ 1700000000001) as H2 by lia.
  assert (1700000000000 ≠ 1700000000001) as Hne by lia.
  split; [by repeat split|]. exact (download_names_differ _ _ H1 H2 Hne).
Defined.

(** *** The base path *)

Lemma split_pieces (sep : N) (s : jsstring) :
  Forall (λ piece, sep ∉ piece) (Vite.split sep s).
Proof.
  induction s as [|c s IH]; cbn [Vite.split].
  - repeat constructor. apply not_elem_of_nil.
  - destruct (N.eqb_spec c sep) as [->|Hc].
    + constructor; [apply not_elem_of_nil|done].
    + destruct (Vite.split sep s) as [|piece pieces].
      * repeat constructor. by intros ->%list_elem_of_singleton.
      * apply Forall_cons in IH as [Hp Hps]. constructor; [|done].
        intros [->|H]%elem_of_cons; done.
Qed.

Lemma split_whole (sep : N) (s : jsstring) : sep ∉ s → Vite.split sep s = [s].
Proof.
  induction s as [|c s IH]; [done|]. intros [Hc Hs]%not_elem_of_cons.
  cbn [Vite.split]. rewrite IH by done.
  destruct (N.eqb_spec c sep); [by subst|done].
Qed.

Lemma split_at (sep : N) (a b : jsstring) :
  sep ∉ a → Vite.split sep (a ++ sep :: b) = a :: Vite.split sep b.
Proof.
  induction a as [|c a IH]; cbn [app Vite.split].
  - by rewrite N.eqb_refl.
  - intros [Hc Ha]%not_elem_of_cons. rewrite IH by done.
    destruct (N.eqb_spec c sep); [by subst|done].
Qed.

(** X11.  In production the base path is one path segment between two
    slashes, whatever [GITHUB_REPOSITORY] holds; in any other mode it is
    [/].  With the variable unset or empty the second configuration gives
    the base path of the first. *)
Theorem base_is_rooted (mode : jsstring) (repository : option jsstring) :
  (∃ seg, (0x2F%N ∉ seg) ∧
     Vite.base mode repository =
     if bool_decide (mode = Js.lit "production") then Js.lit "/" ++ seg ++ Js.lit "/"
     else Js.lit "/") ∧
  Vite.base mode None = Vite.base_fixed mode ∧
  Vite.base mode (Some []) = Vite.base_fixed mode.
Proof.
  split; [|by unfold Vite.base, Vite.base_fixed; case_bool_decide].
  unfold Vite.base. case_bool_decide as Hmode; [|exists []; split; [apply not_elem_of_nil|done]].
  assert (0x2F%N ∉ Js.lit "cnm-demo") as Hfixed.
  { vm_compute. intros H. repeat (apply elem_of_cons in H as [H|H]; [discriminate|]).
    by apply elem_of_nil in H. }
  destruct repository as [[|c r]|]; [by exists (Js.lit "cnm-demo")| |by exists (Js.lit "cnm-demo")].
  cbn [Js.truthy]. eexists. split; [|reflexivity].
  destruct (Vite.split 47 (c :: r) !! 1%nat) as [piece|] eqn:Hpiece; cbn [Vite.interpolate default].
  - pose proof (split_pieces 0x2F (c :: r)) as Hall.
    rewrite Forall_lookup in Hall. by apply (Hall 1%nat).
  - vm_compute. intros H. repeat (apply elem_of_cons in H as [H|H]; [discriminate|]).
    by apply elem_of_nil in H.
Qed.

(** X12.  For a repository given as [owner/name], the production base
    path is [/name/]. *)
Theorem base_names_repository (owner name : jsstring) :
  0x2F%N ∉ owner → 0x2F%N ∉ name →
  Vite.base (Js.lit "production") (Some (owner ++ Js.lit "/" ++ name)) =
  Js.lit "/" ++ name ++ Js.lit "/".
Proof.
  intros Howner Hname. unfold Vite.base. rewrite bool_decide_eq_true_2 by done.
  replace (owner ++ Js.lit "/" ++ name) with (owner ++ 0x2F%N :: name) by done.
  rewrite split_at, split_whole by done.
  by destruct owner.
Qed.

Lemma base_names_repository_witness :
  let owner := Js.lit "andrei-cristea-EW" in
  let name := Js.lit "CNM_demo" in
  ((0x2F%N ∉ owner) ∧ (0x2F%N ∉ name)) ∧
  Vite.base (Js.lit "production") (Some (Js.lit "andrei-cristea-EW/CNM_demo")) =
  Js.lit "/CNM_demo/".
Proof.
  intros owner name.
  assert (0x2F%N ∉ owner) as Ho by (apply (bool_decide_unpack _); vm_compute; exact I).
  assert (0x2F%N ∉ name) as Hn by (apply (bool_decide_unpack _); vm_compute; exact I).
  split; [by split|]. exact (base_names_repository owner name Ho Hn).
Defined.

(** *** Exports that end without a file *)

(** X13.  An export whose serialized markup holds a surrogate without its
    partner ends in the call itself: [encodeURIComponent] throws, the
    [URIError] leaves [downloadAsPNG] uncaught, no image is started and no
    file, raster or vector, is produced or pending, and nothing is
    logged. *)
Theorem export_of_unpaired_surrogate (P : Platform) (fn : option jsstring) (env : ExportEnv)
    (w : World) (p : list nat) (svg : Node) :
  mounted w ≫= Dom.querySelector "svg" = Some (p, svg) →
  context2d env = true →
  Encoding.utf8_encode (export_markup P env svg) = None →
  let w1 := step P (Export fn env) w in
  uncaught w1 = uncaught w ++ [URIError "URI malformed"] ∧
  images w1 = images w ∧ encodings w1 = encodings w ∧
  downloads w1 = downloads w ∧ console w1 = console w.
Proof.
  intros Hsvg Hctx Henc. unfold mounted in Hsvg. cbn [step]. unfold downloadAsPNG.
  destruct (mermaidRef w) as [l|]; [|done]. simpl in Hsvg. rewrite Hsvg.
  pose proof (clone_with_size_deref P env svg w) as Hclone.
  destruct (clone_with_size_frame P env svg w) as [Hsame _].
  destruct (clone_with_size P env svg w) as [r w1]; simpl in *.
  destruct Hsame as (_ & _ & _ & _ & Him & Hen & Hdl & Hco & Hun).
  rewrite Hctx. unfold load_image. rewrite Hclone.
  fold (export_markup P env svg). rewrite Henc. simpl.
  by rewrite Hun.
Qed.

Lemma export_of_unpaired_surrogate_witness :
  let w := run Fixture.platform
             [Render (Js.lit "graph TD; A-->B") 1000;
              Settle 0 (Fulfilled (Js.lit "<svg>" ++ [0xD83D%N] ++ Js.lit "</svg>"))] init in
  let env := Fixture.env_int in
  let w1 := step Fixture.platform (Export None env) w in
  ∃ svg,
    (mounted w ≫= Dom.querySelector "svg" = Some ([0%nat], svg) ∧
     context2d env = true ∧
     Encoding.utf8_encode (export_markup Fixture.platform env svg) = None) ∧
    uncaught w1 = [URIError "URI malformed"] ∧ images w1 = [] ∧ downloads w1 = [].
Proof.
  intros w env w1. eexists.
  assert (∀ A B : Prop, A → (A → B) → A ∧ B) as both by tauto.
  apply both.
  - split; [vm_compute; reflexivity|]. split; [reflexivity|]. vm_compute. reflexivity.
  - intros (Hsvg & Hctx & Henc).
    destruct (export_of_unpaired_surrogate Fixture.platform None env w _ _ Hsvg Hctx Henc)
      as (Hun & Him & _ & Hdl & _).
    split; [exact Hun|]. split; [exact Him|exact Hdl].
Defined.

(** *** Exports and the renders between their events *)





(** The encoder's [null], on the page of the fixture. *)
Lemma null_blob_no_file_witness :
  let w := Fixture.showing_diagram in
  let env := Fixture.env_int in
  let w' := run Fixture.platform
              [Export None env; ImageLoad 0 ToBlobQueued; BlobReady 0 None] w in
  (mounted w ≫= Dom.querySelector "svg" = Some ([0%nat], Fixture.shown_svg) ∧
   context2d env = true ∧
   is_Some (Encoding.utf8_encode (export_markup Fixture.platform env Fixture.shown_svg))) ∧
  downloads w' = [] ∧ images w' = [] ∧ encodings w' = [].
Proof.
  intros w env w'.
  assert (∀ A B : Prop, A → (A → B) → A ∧ B) as both by tauto.
  apply both.
  - split; [vm_compute; reflexivity|]. split; [reflexivity|].
    vm_compute. eexists. reflexivity.
  - intros (Hsvg & Hctx & Henc).
    exact (null_blob_no_file Fixture.platform None env w [0%nat] Fixture.shown_svg
             Hsvg Hctx Henc).
Defined.

(** A fulfilled attempt that settles after the description has become
    blank. *)
Lemma detached_stays_witness :
  let w := run Fixture.platform
             [Render (Js.lit "graph TD; A-->B") 1000; Render (Js.lit " ") 1001] init in
  let e := Settle 0 (Fulfilled (Js.lit "<svg>A-B</svg>")) in
  (mermaidRef w = None ∧ ∀ c now, e ≠ Render c now) ∧
  mermaidRef (step Fixture.platform e w) = None ∧ mounted (step Fixture.platform e w) = None.
Proof.
  intros w e.
  assert (mermaidRef w = None) as Href by reflexivity.
  assert (∀ c now, e ≠ Render c now) as He by (intros c now; discriminate).
  split; [by split|]. exact (detached_stays Fixture.platform e w Href He).
Defined.

(** *** An attempt that settles with no element behind the ref *)

(** X17.  An attempt that settles when no element is behind the ref,
    fulfilled or rejected, shows nothing: the assignment to [innerHTML]
    throws, the [catch] block logs the error it was given and throws in its
    turn on the same assignment, and that [TypeError] is left uncaught.  The
    document is unchanged. *)
Theorem settle_without_element (P : Platform) (w : World) (k : nat) (att : Attempt)
    (o : Settled) :
  attempts w !! k = Some att →
  mermaidRef w = None →
  let w' := step P (Settle k o) w in
  let null := TypeError "Cannot set properties of null (setting 'innerHTML')" in
  console w' = console w ++
    [console_error "Mermaid rendering error:"
       (Some (match o with Fulfilled _ => null | Rejected error => error end))] ∧
  uncaught w' = uncaught w ++ [null] ∧
  attempts w' = delete k (attempts w) ∧
  heap w' = heap w ∧ mermaidRef w' = None ∧ downloads w' = downloads w.
Proof.
  intros Hk Href. cbn [step]. unfold settle. rewrite Hk.
  unfold renderChart_resume, renderChart_catch.
  destruct o as [svg|error]; cbn [mermaidRef W.set_attempts W.log W.set_console];
    rewrite Href; done.
Qed.

Lemma settle_without_element_witness :
  let w := run Fixture.platform
             [Render (Js.lit "graph TD; A-->B") 1000; Render (Js.lit " ") 1001] init in
  let w' := step Fixture.platform (Settle 0 (Fulfilled (Js.lit "<svg>A-B</svg>"))) w in
  (∃ att, attempts w !! 0%nat = Some att ∧ mermaidRef w = None) ∧
  uncaught w' = [TypeError "Cannot set properties of null (setting 'innerHTML')"] ∧
  attempts w' = [].
Proof.
  intros w w'.
  assert (attempts w !! 0%nat =
          Some {| att_id := Js.lit "mermaid-1000"; att_chart := Js.lit "graph TD; A-->B" |})
    as Hk by (vm_compute; reflexivity).
  assert (mermaidRef w = None) as Href by reflexivity.
  split; [by eexists|].
  destruct (settle_without_element Fixture.platform w 0 _
              (Fulfilled (Js.lit "<svg>A-B</svg>")) Hk Href) as (_ & Hun & Hatt & _).
  split; [exact Hun|exact Hatt].
Defined.

(** *** Renders *)



Lemma exporters_mounted (P : Platform) (es : list Event) (w : World) :
  Forall (λ e, of_exporter e = true) es → mounted (run P es w) = mounted w.
Proof.
  intros Hes. revert w. induction Hes as [|e es He _ IH]; intros w; [done|].
  change (run P (e :: es) w) with (run P es (step P e w)).
  by rewrite IH, exporter_mounted.
Qed.

Lemma downloadAsPNG_no_svg (P : Platform) (fn : option jsstring) (env : ExportEnv) (w : World) :
  mounted w ≫= Dom.querySelector "svg" = None → downloadAsPNG P fn env w = w.
Proof.
  unfold mounted, downloadAsPNG. destruct (mermaidRef w) as [l|]; [|done].
  cbn [mbind option_bind]. by intros ->.
Qed.

(** X19.  A render with a new description empties the element before the
    engine runs.  From then until an attempt settles or the component
    renders again, whatever exports are called and whatever callbacks of
    exports run in between, an export finds no [svg] element and does
    nothing at all. *)
Theorem export_while_rendering (P : Platform) (c : jsstring) (now : Z) (w : World)
    (es : list Event) (fn : option jsstring) (env : ExportEnv) :
  attached w → shows_div c = true → chart w ≠ Some c →
  parseHTML P [] = [] →
  Forall (λ e, of_exporter e = true) es →
  let w' := run P es (step P (Render c now) w) in
  step P (Export fn env) w' = w'.
Proof.
  intros Hatt Hdiv Hnew Hparse Hes w'. subst w'. cbn [step].
  destruct (render_starts P c now w Hatt Hdiv Hnew) as ((t & a & s & Hm) & _).
  apply downloadAsPNG_no_svg.
  rewrite (exporters_mounted P es _ Hes), Hm, Hparse. done.
Qed.

Lemma export_while_rendering_witness :
  let c := Js.lit "graph TD; C-->D" in
  let w := step Fixture.platform (Export None Fixture.env_int) Fixture.showing_diagram in
  let es := [ImageError 0; Export (Some (Js.lit "again.png")) Fixture.env_int] in
  let w' := run Fixture.platform es (step Fixture.platform (Render c 2000) w) in
  (attached w ∧ shows_div c = true ∧ chart w ≠ Some c ∧ parseHTML Fixture.platform [] = [] ∧
   Forall (λ e, of_exporter e = true) es) ∧
  step Fixture.platform (Export None Fixture.env_int) w' = w' ∧
  length (downloads w') = 1%nat.
Proof.
  intros c w es w'.
  assert (attached w) as Hatt by (apply step_attached, run_attached, attached_init).
  assert (shows_div c = true) as Hdiv by (vm_compute; reflexivity).
  assert (chart w ≠ Some c) as Hnew by (vm_compute; discriminate).
  assert (parseHTML Fixture.platform [] = []) as Hparse by reflexivity.
  assert (Forall (λ e, of_exporter e = true) es) as Hes by (by repeat constructor).
  split; [by repeat split|]. split; [|vm_compute; reflexivity].
  exact (export_while_rendering Fixture.platform c 2000 w es None Fixture.env_int
           Hatt Hdiv Hnew Hparse Hes).
Defined.

(** *** The style of the diagram *)

Lemma declared_assign (k : string) (v : jsstring) (l : list (string * jsstring)) :
  declared k (Dom.assign k v l) = Some v.
Proof.
  induction l as [|[k' v'] l IH]; simpl; [by rewrite bool_decide_eq_true_2|].
  case_bool_decide as Hk; simpl.
  - by rewrite bool_decide_eq_true_2.
  - by rewrite bool_decide_eq_false_2.
Qed.

Lemma declared_assign_other (k k0 : string) (v : jsstring) (l : list (string * jsstring)) :
  k ≠ k0 → declared k (Dom.assign k0 v l) = declared k l.
Proof.
  intros Hne. induction l as [|[k' v'] l IH]; simpl.
  - by rewrite bool_decide_eq_false_2.
  - case_bool_decide as Hk; simpl.
    + subst k'. by rewrite !bool_decide_eq_false_2.
    + by rewrite IH.
Qed.

Lemma subtree_modify (p : list nat) (f : Node → Node) (n m : Node) :
  Dom.subtree p n = Some m → Dom.subtree p (Dom.modify p f n) = Some (f m).
Proof.
  revert n. induction p as [|i p IH]; intros n; simpl; [by intros [= ->]|].
  destruct n as [t a s kids|d]; [|done].
  destruct (kids !! i) as [kid|] eqn:Hi; [|done]. simpl. intros Hm.
  rewrite list_lookup_alter_eq, Hi. simpl. by apply IH.
Qed.

(** X20.  A fulfilled attempt leaves the first [svg] element of its markup
    in the page with [max-width: 100%], [height: auto] and
    [background-color: transparent], whatever the markup declared for these
    three; its other declarations, its attributes and its children are as
    parsed. *)
Theorem rendered_svg_is_styled (P : Platform) (w : World) (k : nat) (att : Attempt)
    (t : string) (a s : list (string * jsstring)) (kids : list Node)
    (markup : jsstring) (p : list nat) (el : Node) :
  attempts w !! k = Some att →
  mounted w = Some (Elem t a s kids) →
  Dom.querySelector "svg" (Elem t a s (parseHTML P markup)) = Some (p, el) →
  let w' := step P (Settle k (Fulfilled markup)) w in
  ∃ a' s' kids' styled,
    el = Elem "svg" a' s' kids' ∧
    mounted w' ≫= Dom.subtree p = Some (Elem "svg" a' styled kids') ∧
    declared "max-width" styled = Some (Js.lit "100%") ∧
    declared "height" styled = Some (Js.lit "auto") ∧
    declared "background-color" styled = Some (Js.lit "transparent") ∧
    ∀ property, property ∉ ["max-width"; "height"; "background-color"] →
                declared property styled = declared property s'.
Proof.
  intros Hk Hm Hq w'. subst w'. cbn [step].
  destruct (settle_mounted P k (Fulfilled markup) w att t a s kids Hk Hm) as (Hm' & _).
  destruct (querySelector_path _ _ _ _ Hq) as (j & q & Hp).
  destruct (querySelector_sound _ _ _ _ Hq) as (Hsub & a' & s' & kids' & ->).
  exists a', s', kids',
    (Dom.assign "background-color" (Js.lit "transparent")
       (Dom.assign "height" (Js.lit "auto") (Dom.assign "max-width" (Js.lit "100%") s'))).
  split; [done|]. split.
  - rewrite Hm'. cbn [mbind option_bind shown]. simpl in Hq. rewrite Hq.
    rewrite <- (restyle_children p t a s _ j q Hp). unfold restyle.
    by rewrite (subtree_modify _ _ _ _ (subtree_modify _ _ _ _ (subtree_modify _ _ _ _ Hsub))).
  - split; [|split; [|split]].
    + by rewrite 2!declared_assign_other, declared_assign by done.
    + by rewrite declared_assign_other, declared_assign by done.
    + by rewrite declared_assign.
    + intros property Hother. rewrite !declared_assign_other; [done|..];
        intros ->; apply Hother; repeat constructor.
Qed.

Lemma rendered_svg_is_styled_witness :
  let w := step Fixture.platform (Render (Js.lit "graph TD; A-->B") 1000) init in
  let markup := Js.lit "<svg>A-B</svg>" in
  let w' := step Fixture.platform (Settle 0 (Fulfilled markup)) w in
  ∃ att t a s kids el,
    (attempts w !! 0%nat = Some att ∧ mounted w = Some (Elem t a s kids) ∧
     Dom.querySelector "svg" (Elem t a s (parseHTML Fixture.platform markup)) = Some ([0%nat], el)) ∧
    ∃ styled, mounted w' ≫= Dom.subtree [0%nat] = Some (Elem "svg" [] styled [Text markup]) ∧
              declared "max-width" styled = Some (Js.lit "100%").
Proof.
  intros w markup w'. eexists _, _, _, _, _, _.
  assert (∀ A B : Prop, A → (A → B) → A ∧ B) as both by tauto.
  apply both.
  - split; [vm_compute; reflexivity|]. split; vm_compute; reflexivity.
  - intros (Hk & Hm & Hq).
    destruct (rendered_svg_is_styled Fixture.platform w 0 _ _ _ _ _ markup _ _ Hk Hm Hq)
      as (a' & s' & kids' & styled & Hel & Hsub & Hmax & _).
    injection Hel as <- <- <-. by exists styled.
Defined.

(** *** One diagram per renderer *)

Lemma session_turn (actions : list Chat.Action) :
  idle (Chat.session actions) ∨ loading (Chat.session actions).
Proof.
  unfold Chat.session. induction actions as [|a actions IH] using rev_ind; [by left|].
  rewrite foldl_app. by apply act_keeps_turn.
Qed.

Lemma session_snoc (actions : list Chat.Action) (a : Chat.Action) :
  Chat.session (actions ++ [a]) = Chat.act (Chat.session actions) a.
Proof. unfold Chat.session. by rewrite foldl_app. Qed.

(** X21.  On the page as rendered no diagram is ever replaced by another:
    whatever happens next, the diagram stays, or there was none, or there is
    none afterwards.  A [MermaidRenderer] is taken out of the page before
    the next diagram arrives, so one renderer gets one description. *)
Theorem diagram_replaced_through_empty (actions : list Chat.Action) (a : Chat.Action) :
  let s := Chat.session actions in
  let s' := Chat.session (actions ++ [a]) in
  Chat.mermaidDiagram s' = Chat.mermaidDiagram s ∨
  Chat.mermaidDiagram s = [] ∨ Chat.mermaidDiagram s' = [].
Proof.
  intros s s'. subst s s'. rewrite session_snoc.
  pose proof (session_turn actions) as Hturn.
  generalize dependent (Chat.session actions). intros s Hturn.
  unfold Chat.act. destruct (Chat.offered a s) eqn:Hoff; [|by left].
  destruct a as [v| | |now|md ds|err]; cbn [Chat.handle Chat.offered] in *.
  - by left.
  - unfold Chat.handleSubmit. repeat case_match; [by left..|by right; right].
  - left. unfold Chat.handleOpenInDrawIO, DrawIO.handleOpenInDrawIO.
    cbv zeta. cbn [Chat.mermaidDiagram].
    by destruct (DrawIO.generateDrawIOUrl _) as [log [url|e]].
  - left. unfold Chat.handleDownload. by case_match.
  - right. left. destruct Hturn as [[_ Hw]|(_ & _ & Hd & _)]; [|done].
    rewrite Hw in Hoff. done.
  - by left.
Qed.

(** *** The draw.io link of a plain text *)

Lemma unreserved_plain (c : N) :
  Uri.unreserved c = true → (0x21 ≤ c)%N ∧ (c < 0x80)%N ∧ c ≠ 0x22%N ∧ c ≠ 0x5C%N.
Proof.
  intros H. unfold Uri.unreserved in H.
  repeat (apply orb_prop in H as [H|H]);
    try (apply andb_prop in H as [H1%N.leb_le H2%N.leb_le]; lia).
  apply bool_decide_eq_true in H. repeat (apply elem_of_cons in H as [->|H]; [lia|]).
  by apply elem_of_nil in H.
Qed.

Lemma quote_unit_plain (c : N) : Uri.unreserved c = true → Json.quote_unit c = [c].
Proof.
  intros (Hlo & Hhi & Hq & Hb)%unreserved_plain. unfold Json.quote_unit.
  repeat (match goal with
          | |- context [(?x =? ?y)%N] => destruct (N.eqb_spec x y); [lia|]
          end).
  destruct (N.ltb_spec c 0x20); [lia|].
  unfold Encoding.is_high_surrogate, Encoding.is_low_surrogate.
  destruct (N.leb_spec 0xD800 c); [lia|]. destruct (N.leb_spec 0xDC00 c); [lia|]. done.
Qed.

Lemma encode_quote_plain (t : jsstring) :
  Forall (λ c, Uri.unreserved c = true) t →
  Uri.encodeURIComponent (Json.quote_body t) = Some t.
Proof.
  induction 1 as [|c t Hc _ IH]; [done|].
  assert (Encoding.is_high_surrogate c = false) as Hh.
  { destruct (Encoding.is_high_surrogate c) eqn:Hh; [|done].
    rewrite surrogate_reserved in Hc by by left. done. }
  rewrite quote_body_cons by by left. rewrite quote_unit_plain by done.
  cbn [app Uri.encodeURIComponent]. by rewrite Hc, IH.
Qed.

(** X22.  For a diagram that, trimmed, consists of letters, digits and
    [- _ . ! ~ * ' ( )] only, the draw.io URL is the fixed text around the
    diagram itself, and 1913 code units is exactly what fits: such a
    diagram gets its URL when it is no longer than that, and is too large
    otherwise. *)
Theorem generateDrawIOUrl_plain_text (content : jsstring) :
  Forall (λ c, Uri.unreserved c = true) (Js.trim content) →
  (DrawIO.generateDrawIOUrl content).2 =
  if (1913 <? length (Js.trim content))%nat then DrawIO.Threw DrawIO.TooLarge
  else DrawIO.Returned (DrawIO.prefix ++ encoded_open ++ Js.trim content ++ encoded_close).
Proof.
  intros Hplain.
  destruct (build_cases content) as (e & He & _ & _ & Hlen & Hbuild). cbv zeta in Hlen, Hbuild.
  rewrite encode_quote_plain in He by done. injection He as <-.
  unfold DrawIO.generateDrawIOUrl. rewrite Hbuild.
  destruct (Nat.ltb_spec 2000
              (length (DrawIO.prefix ++ encoded_open ++ Js.trim content ++ encoded_close)));
    destruct (Nat.ltb_spec 1913 (length (Js.trim content))); cbn [snd]; try done; lia.
Qed.

Lemma generateDrawIOUrl_plain_text_witness :
  let content := Js.lit " graphTD " in
  Forall (λ c, Uri.unreserved c = true) (Js.trim content) ∧
  (DrawIO.generateDrawIOUrl content).2 =
  DrawIO.Returned
    (Js.lit "https://app.diagrams.net/?create=%7B%22type%22%3A%22mermaid%22%2C%22data%22%3A%22graphTD%22%7D").
Proof.
  intros content.
  assert (Forall (λ c, Uri.unreserved c = true) (Js.trim content)) as H
    by (vm_compute; repeat constructor).
  split; [exact H|]. exact (generateDrawIOUrl_plain_text content H).
Defined.

(** *** Descriptions that are not blank *)

Lemma trim_start_nonblank (s : jsstring) :
  Exists (λ c, Js.is_white_space c = false) s →
  Js.trim_start s ≠ [] ∧ Exists (λ c, Js.is_white_space c = false) (Js.trim_start s).
Proof.
  induction s as [|c s IH]; intros H; [by apply Exists_nil in H|].
  cbn [Js.trim_start]. destruct (Js.is_white_space c) eqn:Hc.
  - apply Exists_cons in H as [H|H]; [congruence|by apply IH].
  - split; [done|]. by apply Exists_cons_hd.
Qed.

Lemma shows_div_nonblank (s : jsstring) :
  Exists (λ c, Js.is_white_space c = false) s → shows_div s = true.
Proof.
  intros H. apply trim_start_nonblank in H as [_ H].
  unfold shows_div, Js.trim, Js.trim_end.
  assert (Exists (λ c, Js.is_white_space c = false) (reverse (Js.trim_start s))) as Hr.
  { apply Exists_exists in H as (c & Hin & Hc). apply Exists_exists. exists c.
    split; [by apply elem_of_reverse|done]. }
  apply trim_start_nonblank in Hr as [Hne _].
  destruct (Js.trim_start (reverse (Js.trim_start s))) as [|c t] eqn:Ht; [done|].
  rewrite reverse_cons. by destruct (reverse t).
Qed.

(** X23.  A render with a new description that holds a code unit other
    than white space starts one attempt: the element is in the page and
    emptied, the description is logged, and the attempt is suspended with
    the description as given (not trimmed) under the identifier
    [mermaid-<now>].  Nothing is thrown and nothing downloaded. *)
Theorem nonblank_description_starts_attempt (P : Platform) (c : jsstring) (now : Z) (w : World) :
  Exists (λ u, Js.is_white_space u = false) c →
  attached w → chart w ≠ Some c →
  let w' := step P (Render c now) w in
  (∃ t a s, mounted w' = Some (Elem t a s (parseHTML P []))) ∧
  attempts w' =
    attempts w ++ [ {| att_id := Js.lit "mermaid-" ++ Js.of_Z now; att_chart := c |} ] ∧
  console w' = console w ++ [console_log "Mermaid diagram syntax:" c] ∧
  uncaught w' = uncaught w ∧ downloads w' = downloads w.
Proof.
  intros Hc Hatt Hnew. apply shows_div_nonblank in Hc. cbn [step].
  destruct (render_starts P c now w Hatt Hc Hnew) as (Hm & _ & Hat).
  split; [done|]. split; [done|].
  unfold render. rewrite bool_decide_eq_false_2 by done.
  unfold commit, effect, renderChart_start, W.alloc. rewrite Hc. unfold shows_div in Hc.
  destruct (mermaidRef w) as [l|] eqn:Hl;
    cbn [mermaidRef W.set_chart W.set_mermaidConfig W.set_mermaidRef W.set_heap];
    rewrite ?Hl, Hc; done.
Qed.

Lemma nonblank_description_starts_attempt_witness :
  let c := Js.lit "  graph TD; A-->B " in
  let w' := step Fixture.platform (Render c 1000) init in
  (Exists (λ u, Js.is_white_space u = false) c ∧ attached init ∧ chart init ≠ Some c) ∧
  attempts w' = [ {| att_id := Js.lit "mermaid-1000"; att_chart := c |} ] ∧
  console w' = [console_log "Mermaid diagram syntax:" c].
Proof.
  intros c w'.
  assert (Exists (λ u, Js.is_white_space u = false) c) as Hc
    by (do 2 apply Exists_cons_tl; by apply Exists_cons_hd).
  assert (chart init ≠ Some c) as Hnew by discriminate.
  split; [split; [exact Hc|split; [exact attached_init|exact Hnew]]|].
  destruct (nonblank_description_starts_attempt Fixture.platform c 1000 init Hc attached_init Hnew)
    as (_ & Hat & Hco & _).
  split; [exact Hat|exact Hco].
Defined.
